(** * olm: the command-line front end and the lint engine it drives

    The development has two parts.

    - [main] of [src/olm/__init__.py], embedded as a function from a parsed
      command line and a [World] (the imported collaborators: the
      [OUTBREAKS] registry, [lint], [make_report], [requests.get], the file
      system) to the trace of observable actions and the way the process
      ends.
    - The validation engine behind [lint], whose module is not part of the
      sources at hand; it is modelled from the written specification. *)

From Stdlib Require Import ZArith QArith Ascii.
From stdpp Require Import base strings list gmap.

(** ** Python values and how a run ends *)

(** The values that flow through [main]: [None], [str], [bool], a list of
    strings ([ignore_keys]) and a registry entry (a dict of strings). *)
Inductive value :=
  | VNone
  | VStr (s : string)
  | VBool (b : bool)
  | VList (l : list string)
  | VDict (d : gmap string string).

Inductive exn :=
  | AttributeError (attr : string)
  | KeyError (key : string)
  | TypeError
  | External (what : string).

(** A computation returns, leaves through [sys.exit], or dies on an
    uncaught exception. *)
Inductive outcome (A : Type) :=
  | Ret (a : A)
  | Exit (code : Z)
  | Raise (e : exn).
Arguments Ret {A} a.
Arguments Exit {A} code.
Arguments Raise {A} e.

(** What a run does to the outside, in program order.  [msg_ok],
    [msg_fail], [print] and [Path.write_text] are recorded and taken to
    return; an imported function is recorded with its arguments and may
    return, exit or raise as the [World] says. *)
Inductive event :=
  | EvMsgOk (tag msg : string)
  | EvMsgFail (tag msg : string)
  | EvPrint (s : string)
  | EvCall (fn : string) (args : list value) (kwargs : list (string * value))
  | EvWriteText (path text : string).

Definition M (A : Type) : Type := list event * outcome A.

#[global] Instance M_ret : MRet M := λ A a, ([], Ret a).
#[global] Instance M_bind : MBind M := λ A B f m,
  match m with
  | (t, Ret a) => let '(t', o) := f a in (t ++ t', o)
  | (t, Exit c) => (t, Exit c)
  | (t, Raise e) => (t, Raise e)
  end.

Definition emit (e : event) : M unit := ([e], Ret tt).
Definition raise {A} (e : exn) : M A := ([], Raise e).
Definition sys_exit {A} (code : Z) : M A := ([], Exit code).

(** An imported function: the call is observable, its result is the
    collaborator's. *)
Definition extern {A} (fn : string) (args : list value)
    (kwargs : list (string * value)) (result : outcome A) : M A :=
  ([EvCall fn args kwargs], result).

(** The status the operating system sees: 0 on normal return, the argument
    of [sys.exit], 1 for an uncaught exception. *)
Definition exit_status {A} (r : M A) : Z :=
  match r.2 with
  | Ret _ => 0
  | Exit c => c
  | Raise _ => 1
  end.

Definition trace {A} (r : M A) : list event := r.1.

(** ** Strings *)

Definition ESC : string := String "027"%char EmptyString.
Definition BOLD : string := ESC +:+ "[1m".
Definition RESET : string := ESC +:+ "[0m".

(** [sep.join(l)] *)
Fixpoint join (sep : string) (l : list string) : string :=
  match l with
  | [] => EmptyString
  | [x] => x
  | x :: rest => x +:+ sep +:+ join sep rest
  end.

(** [s.split(sep)] for a one-character separator: every occurrence cuts,
    empty tokens are kept, and the result is never empty. *)
Fixpoint split (sep : ascii) (s : string) : list string :=
  match s with
  | EmptyString => [EmptyString]
  | String c rest =>
      if Ascii.eqb c sep then EmptyString :: split sep rest
      else match split sep rest with
           | tok :: toks => String c tok :: toks
           | [] => [String c EmptyString]
           end
  end.

Definition COMMA : ascii := ","%char.

(** A Python [str] is a sequence of code points; here it is held as its
    UTF-8 bytes.  A byte [10xxxxxx] continues a code point, every other
    byte starts one, so [len(s)] counts the bytes that are not
    continuations. *)
Definition is_continuation (c : ascii) : bool :=
  match c with
  | Ascii _ _ _ _ _ _ b6 b7 => b7 && negb b6
  end.

Fixpoint py_len (s : string) : nat :=
  match s with
  | EmptyString => 0
  | String c rest => (if is_continuation c then 0 else 1) + py_len rest
  end.

(** [f"{s:12s}"]: left-justified in a field of at least [n] characters,
    padded with spaces up to [n] code points. *)
Definition ljust (n : nat) (s : string) : string :=
  s +:+ String.concat EmptyString (replicate (n - py_len s) " ").

(** [str(v)] as an f-string renders it.  Only [args.outbreak] is ever
    formatted; the container cases are there for totality. *)
Definition py_str (v : value) : string :=
  match v with
  | VNone => "None"
  | VStr s => s
  | VBool true => "True"
  | VBool false => "False"
  | VList l => "[" +:+ join ", " ((λ s, "'" +:+ s +:+ "'") <$> l) +:+ "]"
  | VDict _ => "{...}"
  end.

(** Truthiness, as [and], [or] and [if] test it. *)
Definition truthy (v : value) : bool :=
  match v with
  | VNone => false
  | VStr s => negb (String.eqb s EmptyString)
  | VBool b => b
  | VList l => negb (bool_decide (l = []))
  | VDict d => negb (bool_decide (d = ∅))
  end.

Definition USAGE : string := "olm: Office for Linelist Management

olm is a tool to operate on linelists provided from Global.health (G.h).
Linelists are epidemiological datasets with information about a disease
outbreak organised into one row per case. Currently it supports
generating briefing reports, fetching linelists and checking linelists
against a provided schema.

olm is organised into subcommands:

list        lists G.h outbreaks that olm supports
get         saves linelist data to disk
report      generates briefing report for an outbreak
lint        lints (checks) an outbreak linelist for errors
".

(** ** The result of a lint run *)

(** Modelled from the spec: the [lint] module, and with it the classes of
    its result, is not among the sources.  The data model of the
    specification gives a violation a row index (none for a dataset-level
    issue), a field name, a kind, a message and the offending cell, and a
    result the verdict [ok] and the ordered violations. *)
Inductive violation_kind :=
  | MissingRequiredField
  | TypeMismatch
  | OutOfRange
  | InvalidEnumValue
  | UnknownField
  | MissingColumn.

(** Modelled from the spec: the Violation of section 3; the class itself
    is in the missing [lint] module. *)
Record Violation := {
  row_index : option nat;
  field_name : string;
  kind : violation_kind;
  message : string;
  raw_value : option string;
}.

(** Modelled from the spec: the Validation Result of section 3; [main]
    reads its [ok] and prints it. *)
Record ValidationResult := {
  ok : bool;
  violations : list Violation;
}.

(** ** The collaborators of [main] *)

Record response := {
  status_code : Z;
  text : string;
}.

(** Everything [main] imports or reaches through the operating system.
    [OUTBREAKS] keeps the insertion order of the dict, which the listing and
    the abort message show. *)
Record World := {
  OUTBREAKS : list (string * gmap string string);
  lint : value → value → value → list string → outcome ValidationResult;
  render : ValidationResult → string;
  make_report :
    value → value → gmap string string → value → value → outcome unit;
  requests_get : string → outcome response;
  path_exists : string → bool;
  cwd : string;
  webbrowser_open : string → outcome bool;
}.

#[global] Instance value_eq_dec : EqDecision value.
Proof. solve_decision. Defined.

(** ** argparse *)

(** What [parser.parse_args()] can hand back: no subcommand, or one of the
    four subparsers with the arguments declared for it.  An option that was
    not given is [None]; [--open] is a flag. *)
Inductive invocation :=
  | NoCommand
  | CmdList
  | CmdGet (outbreak : string)
  | CmdLint (outbreak : string) (data schema ignore : option string)
  | CmdReport (outbreak : string) (data bucket cloudfront : option string)
      (open : bool).

Definition opt (o : option string) : value :=
  match o with
  | Some s => VStr s
  | None => VNone
  end.

(** The namespace carries [command] (the [dest] of the subparsers) and
    exactly the destinations added to the chosen subparser. *)
Definition parse_args (inv : invocation) : gmap string value :=
  match inv with
  | NoCommand => {[ "command" := VNone ]}
  | CmdList => {[ "command" := VStr "list" ]}
  | CmdGet o => <[ "outbreak" := VStr o ]> {[ "command" := VStr "get" ]}
  | CmdLint o d s i =>
      <[ "outbreak" := VStr o ]> (<[ "data" := opt d ]>
      (<[ "schema" := opt s ]> (<[ "ignore" := opt i ]>
      {[ "command" := VStr "lint" ]})))
  | CmdReport o d b c op =>
      <[ "outbreak" := VStr o ]> (<[ "data" := opt d ]>
      (<[ "bucket" := opt b ]> (<[ "cloudfront" := opt c ]>
      (<[ "open" := VBool op ]> {[ "command" := VStr "report" ]}))))
  end.

Definition getattr (args : gmap string value) (name : string) : M value :=
  match args !! name with
  | Some v => mret v
  | None => raise (AttributeError name)
  end.

(** ** Dict operations *)

Fixpoint registry_lookup {A} (reg : list (string * A)) (k : string) : option A :=
  match reg with
  | [] => None
  | (k', v) :: rest => if String.eqb k' k then Some v else registry_lookup rest k
  end.

(** [k in d] *)
Definition registry_mem {A} (k : value) (reg : list (string * A)) : bool :=
  match k with
  | VStr s => bool_decide (is_Some (registry_lookup reg s))
  | _ => false
  end.

(** [d[k]] *)
Definition getitem {A} (reg : list (string * A)) (k : value) : M A :=
  match k with
  | VStr s =>
      match registry_lookup reg s with
      | Some v => mret v
      | None => raise (KeyError s)
      end
  | VNone | VBool _ => raise (KeyError (py_str k))
  | VList _ | VDict _ => raise TypeError
  end.

Definition dict_get (d : gmap string string) (k : string) : M string :=
  match d !! k with
  | Some v => mret v
  | None => raise (KeyError k)
  end.

(** [v + suffix] on strings *)
Definition str_add (v : value) (suffix : string) : M string :=
  match v with
  | VStr s => mret (s +:+ suffix)
  | _ => raise TypeError
  end.

(** [v.split(",")] *)
Definition str_split (v : value) : M (list string) :=
  match v with
  | VStr s => mret (split COMMA s)
  | _ => raise (AttributeError "split")
  end.

(** [posixpath.join(a, b)]: an absolute [b] replaces [a]; otherwise the two
    are put together with one separator, unless [a] is empty or already
    ends in one. *)
Definition ends_with_slash (s : string) : bool :=
  match String.rev s with
  | String "/" _ => true
  | _ => false
  end.

Definition posixpath_join (a b : string) : string :=
  match b with
  | String "/" _ => b
  | _ =>
      if String.eqb a EmptyString || ends_with_slash a then a +:+ b
      else a +:+ "/" +:+ b
  end.

(** [posixpath.splitroot]: the root is two slashes when the path starts
    with exactly two, one slash when it starts with one or with three and
    more, and empty for a relative path. *)
Definition splitroot (p : string) : string * string :=
  match p with
  | String "/" (String "/" (String "/" rest)) => ("/", String "/" (String "/" rest))
  | String "/" (String "/" rest) => ("//", rest)
  | String "/" rest => ("/", rest)
  | _ => (EmptyString, p)
  end.

(** [str(PurePosixPath(p))]: the root, then the components joined by one
    slash, empty components and [.] dropped ([..] is kept); the empty path
    is written [.]. *)
Definition path_str (p : string) : string :=
  let '(root, rel) := splitroot p in
  let tail :=
    filter (λ x, x ≠ EmptyString ∧ x ≠ ".") (split "/"%char rel) in
  let shown := root +:+ join "/" tail in
  if String.eqb shown EmptyString then "." else shown.

(** [str(Path(base) / name)] on a POSIX system *)
Definition path_join (base name : string) : string :=
  path_str (posixpath_join base name).

Fixpoint for_each {A} (l : list A) (body : A → M unit) : M unit :=
  match l with
  | [] => mret tt
  | x :: rest => body x;; for_each rest body
  end.

(** ** [abort] and [main] *)

Definition abort {A} (msg : string) : M A :=
  emit (EvMsgFail "cli" msg);; sys_exit 1.

Definition cmd_list (w : World) : M unit :=
  for_each (OUTBREAKS w).*1 (λ outbreak,
    entry ← getitem (OUTBREAKS w) (VStr outbreak);
    description ← dict_get entry "description";
    entry ← getitem (OUTBREAKS w) (VStr outbreak);
    id ← dict_get entry "id";
    emit (EvPrint (BOLD +:+ ljust 12 outbreak +:+ " " +:+ RESET
                   +:+ description +:+ " [" +:+ id +:+ "]"))).

Definition cmd_get (w : World) (args : gmap string value)
    (bold_outbreak : string) : M unit :=
  outbreak ← getattr args "outbreak";
  entry ← getitem (OUTBREAKS w) outbreak;
  (if bool_decide (is_Some (entry !! "url")) then mret tt
   else abort ("no data URL found for " +:+ bold_outbreak));;
  outbreak ← getattr args "outbreak";
  let output_file := py_str outbreak +:+ ".csv" in
  outbreak ← getattr args "outbreak";
  entry ← getitem (OUTBREAKS w) outbreak;
  url ← dict_get entry "url";
  res ← extern "requests.get" [VStr url] [] (requests_get w url);
  if bool_decide (status_code res = 200%Z) then
    emit (EvWriteText output_file (text res));;
    emit (EvMsgOk "get" ("wrote " +:+ output_file))
  else mret tt.

Definition cmd_lint (w : World) (args : gmap string value)
    (bold_outbreak : string) : M unit :=
  ignore ← getattr args "ignore";
  ignore_keys ← (if bool_decide (ignore = VNone) then mret []
                 else ignore ← getattr args "ignore"; str_split ignore);
  outbreak ← getattr args "outbreak";
  data ← getattr args "data";
  schema ← getattr args "schema";
  lint_result ← extern "lint" [outbreak; data; schema; VList ignore_keys] []
                   (lint w outbreak data schema ignore_keys);
  if ok lint_result then
    emit (EvMsgOk "lint" ("succeeded for " +:+ bold_outbreak))
  else
    emit (EvMsgFail "lint" ("failed for " +:+ bold_outbreak));;
    emit (EvPrint (render w lint_result));;
    sys_exit 2.

Definition cmd_report (w : World) (args : gmap string value) : M unit :=
  outbreak ← getattr args "outbreak";
  data ← getattr args "data";
  source ← (if truthy data then mret data
            else o ← getattr args "outbreak";
                 entry ← getitem (OUTBREAKS w) o;
                 url ← dict_get entry "url";
                 mret (VStr url));
  o ← getattr args "outbreak";
  entry ← getitem (OUTBREAKS w) o;
  bucket ← getattr args "bucket";
  cloudfront ← getattr args "cloudfront";
  extern "make_report" [outbreak; source; VDict entry]
    [("output_bucket", bucket); ("cloudfront_distribution", cloudfront)]
    (make_report w outbreak source entry bucket cloudfront);;
  open ← getattr args "open";
  if truthy open then
    o ← getattr args "outbreak";
    html ← str_add o ".html";
    if path_exists w html then
      o ← getattr args "outbreak";
      html ← str_add o ".html";
      let url := "file://" +:+ path_join (cwd w) html in
      extern "webbrowser.open" [VStr url] [] (webbrowser_open w url);;
      mret tt
    else mret tt
  else mret tt.

Definition main (w : World) (inv : invocation) : M unit :=
  let args := parse_args inv in
  command ← getattr args "command";
  unknown ← (if truthy command then
               command ← getattr args "command";
               if negb (bool_decide (command = VStr "list")) then
                 outbreak ← getattr args "outbreak";
                 mret (negb (registry_mem outbreak (OUTBREAKS w)))
               else mret false
             else mret false);
  (if (unknown : bool) then
     abort ("outbreak not known, choose from: " +:+ BOLD
            +:+ join ", " (OUTBREAKS w).*1 +:+ RESET)
   else mret tt);;
  outbreak ← getattr args "outbreak";
  let bold_outbreak := BOLD +:+ py_str outbreak +:+ RESET in
  command ← getattr args "command";
  if bool_decide (command = VStr "list") then cmd_list w
  else if bool_decide (command = VStr "get") then cmd_get w args bold_outbreak
  else if bool_decide (command = VStr "lint") then cmd_lint w args bold_outbreak
  else if bool_decide (command = VStr "report") then cmd_report w args
  else if bool_decide (command = VNone) then emit (EvPrint USAGE)
  else mret tt.

(** ** Vocabulary for the statements about [main] *)

(** The outbreak name an invocation carries; [list] and a bare [olm] carry
    none. *)
Definition outbreak_of (inv : invocation) : option string :=
  match inv with
  | NoCommand | CmdList => None
  | CmdGet o | CmdLint o _ _ _ | CmdReport o _ _ _ _ => Some o
  end.

(** The list the [lint] branch builds from [--ignore]. *)
Definition ignore_keys_of (ignore : option string) : list string :=
  match ignore with
  | Some s => split COMMA s
  | None => []
  end.

Fixpoint contains (c : ascii) (s : string) : bool :=
  match s with
  | EmptyString => false
  | String c' rest => Ascii.eqb c' c || contains c rest
  end.

(** A call of the imported [lint]. *)
Definition is_lint_call (e : event) : Prop :=
  match e with
  | EvCall fn _ _ => fn = "lint"
  | _ => False
  end.

(** A computation that never calls [lint]. *)
Definition lint_free {A} (m : M A) : Prop :=
  Forall (λ e, ¬ is_lint_call e) (trace m).

(** ** Vocabulary for the statements about whole runs *)

(** Every event of a run satisfies [P]. *)
Definition trace_all {A} (P : event → Prop) (m : M A) : Prop :=
  Forall P (trace m).

(** A run can leave through [sys.exit] only with a status in [P]. *)
Definition exits_with {A} (P : Z → Prop) (m : M A) : Prop :=
  match m.2 with
  | Exit c => P c
  | _ => True
  end.

(** The imported functions a subcommand may call. *)
Definition callable (inv : invocation) : list string :=
  match inv with
  | NoCommand | CmdList => []
  | CmdGet _ => ["requests.get"]
  | CmdLint _ _ _ _ => ["lint"]
  | CmdReport _ _ _ _ _ => ["make_report"; "webbrowser.open"]
  end.

Definition calls_within (fns : list string) (e : event) : Prop :=
  match e with
  | EvCall fn _ _ => fn ∈ fns
  | _ => True
  end.

Definition is_write (e : event) : Prop :=
  match e with
  | EvWriteText _ _ => True
  | _ => False
  end.

Definition is_message (e : event) : Prop :=
  match e with
  | EvMsgOk _ _ | EvMsgFail _ _ => True
  | _ => False
  end.

(** The data source a report is made from: [--data] when it is given and
    not empty, the registry's URL otherwise. *)
Definition report_source (data : option string)
    (entry : gmap string string) : option string :=
  match data with
  | Some given =>
      if bool_decide (given = EmptyString) then entry !! "url" else Some given
  | None => entry !! "url"
  end.

Fixpoint count_char (c : ascii) (s : string) : nat :=
  match s with
  | EmptyString => 0
  | String c' rest =>
      (if Ascii.eqb c' c then 1 else 0) + count_char c rest
  end.

(** No collaborator leaves through [sys.exit] on its own. *)
Definition never_exits (w : World) : Prop :=
  (∀ o d s keys code, lint w o d s keys ≠ Exit code)
  ∧ (∀ o src entry b c code, make_report w o src entry b c ≠ Exit code)
  ∧ (∀ url code, requests_get w url ≠ Exit code)
  ∧ (∀ url code, webbrowser_open w url ≠ Exit code).

(** The line the listing prints for one registry entry. *)
Definition listing_line (outbreak description id : string) : event :=
  EvPrint (BOLD +:+ ljust 12 outbreak +:+ " " +:+ RESET
           +:+ description +:+ " [" +:+ id +:+ "]").

(** ** The validation engine *)

Module Engine.

(** Modelled from the spec: the [lint] module is not among the sources, so
    the engine follows the specification's data model (section 3), field
    validators (4.3) and algorithm (4.4).  A field's constraints travel with
    its type, as a closed sum. *)
Inductive field_type :=
  | TString
  | TInteger (min max : option Z)
  | TFloat (min max : option Q)
  | TDate (formats : list string)
  | TEnum (allowed : list string)
  | TBoolean.

(** Modelled from the spec: a Field Specification of section 3, in the
    missing [lint] module. *)
Record FieldSpec := {
  name : string;
  required : bool;
  type : field_type;
}.

(** Modelled from the spec: a Schema is the ordered sequence of its field
    specifications (section 3). *)
Definition Schema : Type := list FieldSpec.

(** Modelled from the spec: the Dataset of section 3.  A row maps a column
    name to its raw cell; the dataset keeps the header the loader read,
    against which the dataset-level checks of section 4.4 run. *)
Record Dataset := {
  header : list string;
  rows : list (gmap string string);
}.

(** Modelled from the spec: the two fatal errors of section 7. *)
Inductive load_error :=
  | SchemaLoadError
  | DatasetLoadError.

(** Modelled from the spec: the external capabilities of section 6, [fetch]
    for a URL and [read] for a local path, as they answer during one run. *)
Record Sources := {
  is_url : string → bool;
  fetch : string → option string;
  read : string → option string;
}.

(** Modelled from the spec: what the specification names but does not
    define.  The document formats of the loaders, the numeric and date
    parsers, the recognised boolean tokens and the wording of messages are
    taken as given. *)
Record Env := {
  parse_schema : string → option Schema;
  parse_dataset : string → option Dataset;
  parse_integer : string → option Z;
  parse_float : string → option Q;
  date_matches : string → string → bool;
  boolean_tokens : list string;
  describe : violation_kind → string → option string → string;
}.

(** Modelled from the spec: a source is fetched when it is a URL and read
    when it is a local path (sections 4.1, 4.2 and 6). *)
Definition load_bytes (io : Sources) (source : string) : option string :=
  if is_url io source then fetch io source else read io source.

(** Modelled from the spec: section 4.1; an unreachable source, a malformed
    document and a duplicate field name all fail the load. *)
Definition load_schema (env : Env) (io : Sources) (source : string)
    : load_error + Schema :=
  match load_bytes io source with
  | None => inl SchemaLoadError
  | Some doc =>
      match parse_schema env doc with
      | None => inl SchemaLoadError
      | Some schema =>
          if bool_decide (NoDup (name <$> schema)) then inr schema
          else inl SchemaLoadError
      end
  end.

(** Modelled from the spec: section 4.2. *)
Definition load_dataset (env : Env) (io : Sources) (source : string)
    : load_error + Dataset :=
  match load_bytes io source with
  | None => inl DatasetLoadError
  | Some payload =>
      match parse_dataset env payload with
      | None => inl DatasetLoadError
      | Some dataset => inr dataset
      end
  end.

(** Modelled from the spec: the inclusive range [[min, max]] of section
    4.3, either bound optional. *)
Definition Z_in_range (min max : option Z) (n : Z) : bool :=
  match min with Some lo => (lo <=? n)%Z | None => true end
  && match max with Some hi => (n <=? hi)%Z | None => true end.

(** Modelled from the spec: the same range for [float] fields, on
    rationals. *)
Definition Q_in_range (min max : option Q) (x : Q) : bool :=
  match min with Some lo => Qle_bool lo x | None => true end
  && match max with Some hi => Qle_bool x hi | None => true end.

(** Modelled from the spec: the per-type rules of section 4.3 on a
    non-empty cell. *)
Definition check_type (env : Env) (t : field_type) (cell : string)
    : option violation_kind :=
  match t with
  | TString => None
  | TInteger min max =>
      match parse_integer env cell with
      | None => Some TypeMismatch
      | Some n => if Z_in_range min max n then None else Some OutOfRange
      end
  | TFloat min max =>
      match parse_float env cell with
      | None => Some TypeMismatch
      | Some x => if Q_in_range min max x then None else Some OutOfRange
      end
  | TDate formats =>
      if existsb (λ fmt, date_matches env fmt cell) formats then None
      else Some TypeMismatch
  | TEnum allowed =>
      if bool_decide (cell ∈ allowed) then None else Some InvalidEnumValue
  | TBoolean =>
      if bool_decide (cell ∈ boolean_tokens env) then None
      else Some TypeMismatch
  end.

(** Modelled from the spec: an empty or missing value (section 4.3). *)
Definition is_empty_cell (cell : option string) : bool :=
  match cell with
  | None => true
  | Some s => String.eqb s EmptyString
  end.

(** Modelled from the spec: the required check runs first and
    short-circuits; an optional empty cell is valid without a type check. *)
Definition validate_cell (env : Env) (f : FieldSpec) (cell : option string)
    : option violation_kind :=
  if is_empty_cell cell then
    if required f then Some MissingRequiredField else None
  else
    match cell with
    | Some s => check_type env (type f) s
    | None => None
    end.

(** Modelled from the spec: a violation with its attributes of section 3
    filled in. *)
Definition mk_violation (env : Env) (row : option nat) (field : string)
    (k : violation_kind) (raw : option string) : Violation :=
  {| row_index := row; field_name := field; kind := k;
     message := describe env k field raw; raw_value := raw |}.

(** Modelled from the spec: a violation survives the ignore-list filter
    when its field name is not on the list. *)
Definition kept (ignore_fields : gset string) (v : Violation) : Prop :=
  field_name v ∉ ignore_fields.

#[global] Instance kept_dec ignore_fields v : Decision (kept ignore_fields v).
Proof. unfold kept. apply _. Defined.

(** Modelled from the spec: one cell of the pass of section 4.4.  The cell
    is looked up and validated; a violation is appended to the accumulator
    unless the field is on the ignore-list. *)
Definition check_cell (env : Env) (ignore_fields : gset string) (i : nat)
    (row : gmap string string) (acc : list Violation) (f : FieldSpec)
    : list Violation :=
  let cell := row !! name f in
  match validate_cell env f cell with
  | Some k =>
      if bool_decide (name f ∈ ignore_fields) then acc
      else acc ++ [mk_violation env (Some i) (name f) k cell]
  | None => acc
  end.

(** Modelled from the spec: the pass of section 4.4: rows in order, fields
    in schema order, the row index counted from [i]. *)
Fixpoint check_rows (env : Env) (ignore_fields : gset string)
    (schema : Schema) (i : nat) (rs : list (gmap string string))
    (acc : list Violation) : list Violation :=
  match rs with
  | [] => acc
  | row :: rest =>
      check_rows env ignore_fields schema (S i) rest
        (foldl (check_cell env ignore_fields i row) acc schema)
  end.

(** Modelled from the spec: the dataset-level checks, computed once against
    the header: one [UnknownField] per distinct column the schema does not
    declare, one [MissingColumn] per declared field the header lacks. *)
Definition unknown_fields (env : Env) (schema : Schema) (hdr : list string)
    : list Violation :=
  (λ c, mk_violation env None c UnknownField None)
    <$> filter (λ c, c ∉ name <$> schema) (remove_dups hdr).

(** Modelled from the spec: [MissingColumn], for a declared field the
    header lacks (section 4.3). *)
Definition missing_columns (env : Env) (schema : Schema) (hdr : list string)
    : list Violation :=
  (λ f, mk_violation env None (name f) MissingColumn None)
    <$> filter (λ f, name f ∉ hdr) schema.

(** Modelled from the spec: the dataset-level violations as they enter the
    final sequence, after the ignore-list filter (section 4.4). *)
Definition dataset_level (env : Env) (ignore_fields : gset string)
    (schema : Schema) (hdr : list string) : list Violation :=
  filter (kept ignore_fields)
    (unknown_fields env schema hdr ++ missing_columns env schema hdr).

(** Modelled from the spec: the engine proper.  The verdict is computed
    from the final sequence. *)
Definition validate (env : Env) (ignore_fields : gset string)
    (schema : Schema) (dataset : Dataset) : ValidationResult :=
  let found :=
    check_rows env ignore_fields schema 0 (rows dataset) []
    ++ dataset_level env ignore_fields schema (header dataset) in
  {| ok := match found with [] => true | _ :: _ => false end;
     violations := found |}.

(** Modelled from the spec: the entry point of section 6.  A loader failure
    ends the run without a result. *)
Definition lint (env : Env) (io : Sources)
    (dataset_source schema_source : string) (ignore_fields : gset string)
    : load_error + ValidationResult :=
  match load_schema env io schema_source with
  | inl e => inl e
  | inr schema =>
      match load_dataset env io dataset_source with
      | inl e => inl e
      | inr dataset => inr (validate env ignore_fields schema dataset)
      end
  end.

End Engine.

(** ** Sample worlds and linelists, used to run the model *)

Definition demo_outbreaks : list (string * gmap string string) :=
  [ ("marburg",
     <[ "description" := "Marburg 2023 Equatorial Guinea" ]>
     (<[ "id" := "GHL2023.D11.1D60.1" ]>
     {[ "url" := "https://example.org/marburg.csv" ]}));
    ("mpox",
     <[ "description" := "Mpox 2024" ]> {[ "id" := "GHL2024.D11.1E71" ]}) ].

Definition demo_violation : Violation :=
  {| row_index := Some 0; field_name := "age"; kind := OutOfRange;
     message := "150 is not within 0..120"; raw_value := Some "150" |}.

Definition demo_pass : ValidationResult :=
  {| ok := true; violations := [] |}.

Definition demo_fail : ValidationResult :=
  {| ok := false; violations := [demo_violation] |}.

Definition demo_render (r : ValidationResult) : string :=
  join ", " (message <$> violations r).

Definition demo_world (status : Z) (r : ValidationResult) : World :=
  {| OUTBREAKS := demo_outbreaks;
     lint := λ _ _ _ _, Ret r;
     render := demo_render;
     make_report := λ _ _ _ _ _, Ret tt;
     requests_get := λ _, Ret {| status_code := status; text := "id,age" |};
     path_exists := λ _, true;
     cwd := "/home/olm";
     webbrowser_open := λ _, Ret true |}.

(** A world whose collaborators fail: [lint] cannot load its inputs, the
    server cannot be reached, the report cannot be made. *)
Definition demo_offline : World :=
  {| OUTBREAKS := demo_outbreaks;
     lint := λ _ _ _ _, Raise (External "cannot load data");
     render := demo_render;
     make_report := λ _ _ _ _ _, Raise (External "cannot make report");
     requests_get := λ _, Raise (External "connection refused");
     path_exists := λ _, false;
     cwd := "/";
     webbrowser_open := λ _, Ret false |}.

Definition digit_of (c : ascii) : option Z :=
  let n := nat_of_ascii c in
  if (48 <=? n) && (n <=? 57) then Some (Z.of_nat (n - 48)) else None.

Fixpoint parse_digits (acc : Z) (s : string) : option Z :=
  match s with
  | EmptyString => Some acc
  | String c rest =>
      match digit_of c with
      | Some d => parse_digits (10 * acc + d) rest
      | None => None
      end
  end.

Definition demo_schema : Engine.Schema :=
  [ {| Engine.name := "case_id"; Engine.required := true;
       Engine.type := Engine.TString |};
    {| Engine.name := "age"; Engine.required := false;
       Engine.type := Engine.TInteger (Some 0%Z) (Some 120%Z) |};
    {| Engine.name := "outcome"; Engine.required := false;
       Engine.type := Engine.TEnum ["recovered"; "deceased"; "active"] |} ].

Definition demo_dataset : Engine.Dataset :=
  {| Engine.header := ["case_id"; "age"; "outcome"; "notes"];
     Engine.rows :=
       [ <[ "case_id" := "c1" ]> (<[ "age" := "150" ]>
           (<[ "outcome" := "recovered" ]> {[ "notes" := "x" ]}));
         <[ "case_id" := EmptyString ]> (<[ "age" := "42" ]>
           (<[ "outcome" := "unknown" ]> {[ "notes" := "y" ]})) ] |}.

Definition demo_empty_dataset : Engine.Dataset :=
  {| Engine.header := ["case_id"; "age"; "outcome"]; Engine.rows := [] |}.

Definition demo_disk : Engine.Sources :=
  {| Engine.is_url := λ s, String.prefix "http" s;
     Engine.fetch := λ _, None;
     Engine.read := λ s, Some s |}.

Definition demo_env (dataset : Engine.Dataset) : Engine.Env :=
  {| Engine.parse_schema := λ _, Some demo_schema;
     Engine.parse_dataset := λ _, Some dataset;
     Engine.parse_integer := λ s,
       if String.eqb s EmptyString then None else parse_digits 0 s;
     Engine.parse_float := λ _, None;
     Engine.date_matches := λ _ _, false;
     Engine.boolean_tokens := ["true"; "false"];
     Engine.describe := λ k field raw, field |}.

(** * Properties of the validation engine *)

Section EngineProperties.
Import Engine.
Variable env : Env.
Implicit Types (ign : gset string) (schema : Schema) (acc : list Violation).

(** A filter that lets everything through changes nothing. *)
Lemma filter_all {A} (P : A → Prop) `{∀ x, Decision (P x)} (l : list A) :
  Forall P l → filter P l = l.
Proof.
  induction 1 as [|x l Hx _ IH]; [done|].
  by rewrite filter_cons_True, IH.
Qed.

(** The accumulator is only ever extended. *)
Lemma check_cell_acc ign i row acc f :
  check_cell env ign i row acc f = acc ++ check_cell env ign i row [] f.
Proof.
  unfold check_cell.
  destruct (validate_cell env f (row !! name f)) as [k|];
    [case_bool_decide|]; simpl; by rewrite ?app_nil_r.
Qed.

Lemma check_fields_acc ign i row schema acc :
  foldl (check_cell env ign i row) acc schema
  = acc ++ foldl (check_cell env ign i row) [] schema.
Proof.
  revert acc. induction schema as [|f schema IH]; intros acc; simpl.
  - by rewrite app_nil_r.
  - rewrite IH, (IH (check_cell env ign i row [] f)), check_cell_acc.
    by rewrite app_assoc.
Qed.

Lemma check_rows_acc ign schema i rs acc :
  check_rows env ign schema i rs acc
  = acc ++ check_rows env ign schema i rs [].
Proof.
  revert i acc. induction rs as [|row rs IH]; intros i acc; simpl.
  - by rewrite app_nil_r.
  - rewrite IH, (IH _ (foldl _ [] schema)), check_fields_acc.
    by rewrite app_assoc.
Qed.

(** Everything the pass appends names a field off the ignore-list. *)
Lemma check_cell_kept ign i row acc f :
  Forall (kept ign) acc → Forall (kept ign) (check_cell env ign i row acc f).
Proof.
  intros Hacc. unfold check_cell.
  destruct (validate_cell env f (row !! name f)) as [k|]; [|done].
  case_bool_decide; [done|].
  apply Forall_app; split; [done|]. by apply Forall_singleton.
Qed.

Lemma check_fields_kept ign i row schema acc :
  Forall (kept ign) acc →
  Forall (kept ign) (foldl (check_cell env ign i row) acc schema).
Proof.
  revert acc. induction schema as [|f schema IH]; intros acc Hacc; simpl.
  - done.
  - by apply IH, check_cell_kept.
Qed.

Lemma check_rows_kept ign schema i rs acc :
  Forall (kept ign) acc →
  Forall (kept ign) (check_rows env ign schema i rs acc).
Proof.
  revert i acc. induction rs as [|row rs IH]; intros i acc Hacc; simpl.
  - done.
  - by apply IH, check_fields_kept.
Qed.

Lemma dataset_level_kept ign schema hdr :
  Forall (kept ign) (dataset_level env ign schema hdr).
Proof.
  apply Forall_forall. intros v Hv. unfold dataset_level in Hv.
  by apply list_elem_of_filter in Hv as [? _].
Qed.

Lemma validate_kept ign schema dataset :
  Forall (kept ign) (violations (validate env ign schema dataset)).
Proof.
  simpl. apply Forall_app; split.
  - by apply check_rows_kept.
  - apply dataset_level_kept.
Qed.

(** Running with an ignore-list is running without one and filtering. *)
Lemma check_cell_filter ign i row f :
  check_cell env ign i row [] f
  = filter (kept ign) (check_cell env ∅ i row [] f).
Proof.
  unfold check_cell.
  destruct (validate_cell env f (row !! name f)) as [k|]; [|done].
  rewrite (bool_decide_eq_false_2 (name f ∈ (∅ : gset string)))
    by set_solver.
  simpl. case_bool_decide as Hin.
  - by rewrite filter_cons_False by (unfold kept; simpl; tauto).
  - by rewrite filter_cons_True by done.
Qed.

Lemma check_fields_filter ign i row schema :
  foldl (check_cell env ign i row) [] schema
  = filter (kept ign) (foldl (check_cell env ∅ i row) [] schema).
Proof.
  induction schema as [|f schema IH]; simpl; [done|].
  rewrite check_fields_acc, (check_fields_acc ∅).
  by rewrite filter_app, IH, check_cell_filter.
Qed.

Lemma check_rows_filter ign schema i rs :
  check_rows env ign schema i rs []
  = filter (kept ign) (check_rows env ∅ schema i rs []).
Proof.
  revert i. induction rs as [|row rs IH]; intros i; simpl; [done|].
  rewrite check_rows_acc, (check_rows_acc ∅).
  by rewrite filter_app, IH, check_fields_filter.
Qed.

Lemma dataset_level_filter ign schema hdr :
  dataset_level env ign schema hdr
  = filter (kept ign) (dataset_level env ∅ schema hdr).
Proof.
  unfold dataset_level. f_equal. symmetry. apply filter_all.
  apply Forall_forall. intros v _. unfold kept. set_solver.
Qed.

Lemma validate_filter ign schema dataset :
  violations (validate env ign schema dataset)
  = filter (kept ign) (violations (validate env ∅ schema dataset)).
Proof.
  simpl. by rewrite filter_app, check_rows_filter, dataset_level_filter.
Qed.

Lemma validate_ok ign schema dataset :
  ok (validate env ign schema dataset) = true
  ↔ violations (validate env ign schema dataset) = [].
Proof.
  unfold validate. simpl.
  destruct (_ ++ _); simpl; split; congruence.
Qed.

(** A result comes from a schema and a dataset that loaded. *)
Lemma lint_returns io dataset_source schema_source ign r :
  lint env io dataset_source schema_source ign = inr r →
  ∃ schema dataset,
    load_schema env io schema_source = inr schema
    ∧ load_dataset env io dataset_source = inr dataset
    ∧ r = validate env ign schema dataset.
Proof.
  unfold lint. intros H.
  destruct (load_schema env io schema_source) as [|schema]; [done|].
  destruct (load_dataset env io dataset_source) as [|dataset]; [done|].
  exists schema, dataset. by simplify_eq.
Qed.

(** C1.  Whenever [lint] returns a result, its [ok] is true exactly when
    its violations are empty; and those violations are the ones an
    unfiltered run finds, with the ignore-list filter applied. *)
Theorem lint_ok_iff_no_violations io dataset_source schema_source ign r :
  lint env io dataset_source schema_source ign = inr r →
  (ok r = true ↔ violations r = [])
  ∧ ∃ schema dataset,
      load_schema env io schema_source = inr schema
      ∧ load_dataset env io dataset_source = inr dataset
      ∧ violations r
        = filter (kept ign) (violations (validate env ∅ schema dataset)).
Proof.
  intros (schema & dataset & Hs & Hd & ->)%lint_returns. split.
  - apply validate_ok.
  - exists schema, dataset. split_and!; [done..|]. apply validate_filter.
Qed.

(** C3.  A field name on the ignore-list is carried by no violation of the
    result, whatever the dataset, the schema and the cells hold. *)
Theorem ignored_field_never_reported
    io dataset_source schema_source ign r field :
  lint env io dataset_source schema_source ign = inr r →
  field ∈ ign →
  ∀ v, v ∈ violations r → field_name v ≠ field.
Proof.
  intros (schema & dataset & _ & _ & ->)%lint_returns Hin v Hv Heq.
  pose proof (validate_kept ign schema dataset) as Hall.
  rewrite Forall_forall in Hall. apply (Hall v Hv). by rewrite Heq.
Qed.

End EngineProperties.

(** * Properties of [main] *)

Lemma bind_ret {A B} (a : A) (f : A → M B) : (mret a ≫= f) = f a.
Proof. unfold mret, M_ret, mbind, M_bind. by destruct (f a). Qed.

Lemma getattr_lookup args n v :
  args !! n = Some v → getattr args n = mret v.
Proof. unfold getattr. by intros ->. Qed.

Lemma getattr_missing args n :
  args !! n = None → getattr args n = raise (AttributeError n).
Proof. unfold getattr. by intros ->. Qed.

(** Symbolic execution: read attributes off the parsed namespace, pass
    returned values on, decide tests on literals. *)
Ltac eval_attr :=
  match goal with
  | |- context [getattr (parse_args ?inv) ?n] =>
      first [ erewrite (getattr_lookup (parse_args inv) n) by reflexivity
            | rewrite (getattr_missing (parse_args inv) n) by reflexivity ]
  end.

Ltac eval_test :=
  match goal with
  | |- context [bool_decide (?a = ?b)] =>
      let r := eval vm_compute in (bool_decide (a = b)) in
      lazymatch r with
      | true => change (bool_decide (a = b)) with true
      | false => change (bool_decide (a = b)) with false
      end
  | |- context [truthy (VStr ?s)] =>
      let r := eval vm_compute in (truthy (VStr s)) in
      lazymatch r with
      | true => change (truthy (VStr s)) with true
      | false => change (truthy (VStr s)) with false
      end
  end.

Ltac run :=
  repeat first
    [ eval_attr | rewrite bind_ret | eval_test
    | progress cbn [negb py_str truthy opt str_split str_add] ].

(** Membership in the registry is membership among its keys. *)
Lemma registry_lookup_keys {A} (reg : list (string * A)) k :
  is_Some (registry_lookup reg k) ↔ k ∈ reg.*1.
Proof.
  induction reg as [|[k' v] reg IH]; simpl.
  - rewrite elem_of_nil. split; [by intros [? ?]|done].
  - rewrite elem_of_cons. destruct (String.eqb_spec k' k) as [->|Hne].
    + split; eauto.
    + rewrite IH. split; [by right|]. by intros [?|?].
Qed.

Lemma registry_mem_keys {A} (reg : list (string * A)) k :
  registry_mem (VStr k) reg = true ↔ k ∈ reg.*1.
Proof.
  unfold registry_mem. rewrite bool_decide_eq_true. apply registry_lookup_keys.
Qed.

Lemma registry_mem_not_keys {A} (reg : list (string * A)) k :
  registry_mem (VStr k) reg = false ↔ k ∉ reg.*1.
Proof.
  rewrite <- registry_mem_keys. by destruct (registry_mem (VStr k) reg).
Qed.

(** An imported call is the first thing seen of whatever follows it. *)
Lemma extern_bind_trace {A B} fn args kwargs (res : outcome A) (f : A → M B) :
  ∃ rest, trace (extern fn args kwargs res ≫= f) = EvCall fn args kwargs :: rest.
Proof.
  unfold extern. destruct res as [a|c|e]; cbv [mbind M_bind trace fst].
  - destruct (f a) as [t o']. by eexists.
  - by eexists.
  - by eexists.
Qed.

(** ** [split] yields exactly the separated tokens *)

Lemma split_nonempty c s : split c s ≠ [].
Proof.
  destruct s as [|a rest]; simpl; [done|].
  destruct (Ascii.eqb a c); [done|]. by destruct (split c rest).
Qed.

(** Joining the tokens with the separator gives the string back. *)
Lemma split_join c s : join (String c EmptyString) (split c s) = s.
Proof.
  induction s as [|a rest IH]; simpl; [done|].
  pose proof (split_nonempty c rest) as Hne.
  destruct (Ascii.eqb_spec a c) as [->|Hac].
  - destruct (split c rest) as [|tok toks]; [done|].
    simpl in *. by rewrite IH.
  - destruct (split c rest) as [|tok toks]; [done|].
    destruct toks as [|tok' toks]; simpl in *; by rewrite <- IH.
Qed.

(** No token holds the separator. *)
Lemma split_no_sep c s : Forall (λ tok, contains c tok = false) (split c s).
Proof.
  induction s as [|a rest IH]; simpl.
  - by apply Forall_singleton.
  - destruct (Ascii.eqb a c) eqn:Hac.
    + by apply Forall_cons.
    + destruct (split c rest) as [|tok toks]; simpl.
      * apply Forall_singleton. simpl. by rewrite Hac.
      * apply Forall_cons in IH as [Htok Htoks].
        apply Forall_cons; split; [|done]. simpl. by rewrite Hac.
Qed.

Lemma split_token c tok : contains c tok = false → split c tok = [tok].
Proof.
  induction tok as [|a tok IH]; simpl; [done|].
  intros [Hac Htok]%orb_false_elim. by rewrite Hac, IH.
Qed.

Lemma split_token_sep c tok rest :
  contains c tok = false →
  split c (tok +:+ String c rest) = tok :: split c rest.
Proof.
  induction tok as [|a tok IH]; simpl.
  - intros _. by rewrite Ascii.eqb_refl.
  - intros [Hac Htok]%orb_false_elim. by rewrite Hac, IH.
Qed.

(** And they are the only such list: [split] inverts [join]. *)
Lemma split_of_join c l :
  l ≠ [] → Forall (λ tok, contains c tok = false) l →
  split c (join (String c EmptyString) l) = l.
Proof.
  induction l as [|tok l IH]; [done|]. intros _ [Htok Hl]%Forall_cons.
  destruct l as [|tok' l].
  - simpl. by apply split_token.
  - change (join (String c EmptyString) (tok :: tok' :: l))
      with (tok +:+ String c (join (String c EmptyString) (tok' :: l))).
    rewrite split_token_sep by done. by rewrite IH.
Qed.

(** ** Which computations call [lint] *)

Lemma lint_free_nil {A} (o : outcome A) : lint_free (([], o) : M A).
Proof. apply Forall_nil_2. Qed.

Lemma lint_free_emit e : ¬ is_lint_call e → lint_free (emit e).
Proof. intros He. by apply Forall_singleton. Qed.

Lemma lint_free_extern {A} fn args kwargs (res : outcome A) :
  fn ≠ "lint" → lint_free (extern fn args kwargs res).
Proof. intros Hfn. by apply Forall_singleton. Qed.

Lemma lint_free_bind {A B} (m : M A) (f : A → M B) :
  lint_free m → (∀ a, lint_free (f a)) → lint_free (m ≫= f).
Proof.
  unfold lint_free, trace. destruct m as [t [a|c|e]]; simpl; intros Hm Hf.
  - specialize (Hf a). destruct (f a) as [t' o']. simpl in *.
    apply Forall_app; by split.
  - done.
  - done.
Qed.

Lemma lint_free_getattr args n : lint_free (getattr args n).
Proof. unfold getattr. destruct (args !! n); apply lint_free_nil. Qed.

Lemma lint_free_getitem {A} (reg : list (string * A)) k :
  lint_free (getitem reg k).
Proof.
  unfold getitem. destruct k; try apply lint_free_nil.
  destruct (registry_lookup reg s); apply lint_free_nil.
Qed.

Lemma lint_free_dict_get d k : lint_free (dict_get d k).
Proof. unfold dict_get. destruct (d !! k); apply lint_free_nil. Qed.

Lemma lint_free_str_add v suffix : lint_free (str_add v suffix).
Proof. destruct v; apply lint_free_nil. Qed.

Lemma lint_free_abort {A} msg : lint_free (abort (A:=A) msg).
Proof. apply Forall_singleton. simpl. tauto. Qed.

Lemma lint_free_for_each {A} (l : list A) (body : A → M unit) :
  (∀ x, lint_free (body x)) → lint_free (for_each l body).
Proof.
  intros Hbody. induction l as [|x l IH]; simpl.
  - apply lint_free_nil.
  - apply lint_free_bind; [apply Hbody|]. by intros _.
Qed.

Ltac solve_free :=
  repeat first
    [ apply lint_free_nil
    | apply lint_free_getattr
    | apply lint_free_getitem
    | apply lint_free_dict_get
    | apply lint_free_str_add
    | apply lint_free_abort
    | apply lint_free_emit; simpl; tauto
    | apply lint_free_extern; discriminate
    | apply lint_free_bind; [|intros ?]
    | match goal with
      | |- lint_free (if ?b then _ else _) => destruct b
      end ].

Lemma lint_free_cmd_list w : lint_free (cmd_list w).
Proof. unfold cmd_list. apply lint_free_for_each. intros k. solve_free. Qed.

Lemma lint_free_cmd_get w args bold : lint_free (cmd_get w args bold).
Proof. unfold cmd_get. solve_free. Qed.

Lemma lint_free_cmd_report w args : lint_free (cmd_report w args).
Proof. unfold cmd_report. solve_free. Qed.

Section MainProperties.
Variable w : World.

(** The whole run of the [lint] subcommand on a known outbreak. *)
Lemma main_lint_known o d s i :
  o ∈ (OUTBREAKS w).*1 →
  main w (CmdLint o d s i)
  = extern "lint" [VStr o; opt d; opt s; VList (ignore_keys_of i)] []
      (lint w (VStr o) (opt d) (opt s) (ignore_keys_of i))
    ≫= λ lint_result,
         if ok lint_result then
           emit (EvMsgOk "lint" ("succeeded for " +:+ BOLD +:+ o +:+ RESET))
         else
           emit (EvMsgFail "lint" ("failed for " +:+ BOLD +:+ o +:+ RESET));;
           emit (EvPrint (render w lint_result));;
           sys_exit 2.
Proof.
  intros Hknown. rewrite <- registry_mem_keys in Hknown. unfold main. run.
  rewrite Hknown. run. unfold cmd_lint. run.
  destruct i as [t|]; run; done.
Qed.

Lemma main_lint_returns o d s i r :
  o ∈ (OUTBREAKS w).*1 →
  lint w (VStr o) (opt d) (opt s) (ignore_keys_of i) = Ret r →
  main w (CmdLint o d s i)
  = if ok r then
      ([EvCall "lint" [VStr o; opt d; opt s; VList (ignore_keys_of i)] [];
        EvMsgOk "lint" ("succeeded for " +:+ BOLD +:+ o +:+ RESET)],
       Ret tt)
    else
      ([EvCall "lint" [VStr o; opt d; opt s; VList (ignore_keys_of i)] [];
        EvMsgFail "lint" ("failed for " +:+ BOLD +:+ o +:+ RESET);
        EvPrint (render w r)],
       Exit 2).
Proof.
  intros Hknown Hr. rewrite main_lint_known by done.
  unfold extern. rewrite Hr. cbv [mbind M_bind].
  by destruct (ok r).
Qed.

(** C2.  When the [lint] subcommand completes a validation run, the exit
    status is 0 if the result's [ok] is true and non-zero if it is
    false. *)
Theorem lint_exit_status o d s i r :
  o ∈ (OUTBREAKS w).*1 →
  lint w (VStr o) (opt d) (opt s) (ignore_keys_of i) = Ret r →
  (ok r = true → exit_status (main w (CmdLint o d s i)) = 0%Z)
  ∧ (ok r = false → exit_status (main w (CmdLint o d s i)) ≠ 0%Z).
Proof.
  intros Hknown Hr. rewrite (main_lint_returns _ _ _ _ r) by done.
  split; intros ->; done.
Qed.

(** C5.  On a completed validation run of the [lint] subcommand, a result
    with violations makes [main] print the failure message and then the
    rendered result; a result without violations makes it print the
    success message and nothing else.  [main] branches on [ok], which
    the data model ties to the violations. *)
Theorem lint_reports_by_result o d s i r :
  o ∈ (OUTBREAKS w).*1 →
  lint w (VStr o) (opt d) (opt s) (ignore_keys_of i) = Ret r →
  (ok r = true ↔ violations r = []) →
  (violations r ≠ [] →
     trace (main w (CmdLint o d s i))
     = [EvCall "lint" [VStr o; opt d; opt s; VList (ignore_keys_of i)] [];
        EvMsgFail "lint" ("failed for " +:+ BOLD +:+ o +:+ RESET);
        EvPrint (render w r)])
  ∧ (violations r = [] →
     trace (main w (CmdLint o d s i))
     = [EvCall "lint" [VStr o; opt d; opt s; VList (ignore_keys_of i)] [];
        EvMsgOk "lint" ("succeeded for " +:+ BOLD +:+ o +:+ RESET)]
     ∧ ∀ detail, EvPrint detail ∉ trace (main w (CmdLint o d s i))).
Proof.
  intros Hknown Hr Hok. rewrite (main_lint_returns _ _ _ _ r) by done.
  split; intros Hv.
  - destruct (ok r); [|done]. by destruct Hv, (proj1 Hok).
  - rewrite (proj2 Hok Hv). split; [done|]. intros detail. simpl.
    rewrite !elem_of_cons, elem_of_nil. by intros [?|[?|?]].
Qed.

(** C6.  The list [main] hands to [lint] is empty when [--ignore] was not
    given; when it was, the list is the split of its value at commas,
    that is the tokens, in order, that joined by commas give the value
    back and hold no comma themselves. *)
Theorem lint_receives_ignore_tokens o d s i :
  o ∈ (OUTBREAKS w).*1 →
  ∃ ignore_keys rest,
    trace (main w (CmdLint o d s i))
    = EvCall "lint" [VStr o; opt d; opt s; VList ignore_keys] [] :: rest
    ∧ match i with
      | None => ignore_keys = []
      | Some given =>
          ignore_keys = split COMMA given
          ∧ join "," ignore_keys = given
          ∧ Forall (λ tok, contains COMMA tok = false) ignore_keys
      end.
Proof.
  intros Hknown. rewrite main_lint_known by done.
  destruct (extern_bind_trace "lint"
              [VStr o; opt d; opt s; VList (ignore_keys_of i)] []
              (lint w (VStr o) (opt d) (opt s) (ignore_keys_of i))
              (λ lint_result : ValidationResult,
                 if ok lint_result then
                   emit (EvMsgOk "lint"
                           ("succeeded for " +:+ BOLD +:+ o +:+ RESET))
                 else
                   emit (EvMsgFail "lint"
                           ("failed for " +:+ BOLD +:+ o +:+ RESET));;
                   emit (EvPrint (render w lint_result));;
                   sys_exit 2)) as [rest Hrest].
  exists (ignore_keys_of i), rest. split; [done|].
  destruct i as [given|]; [|done]. split_and!; [done|..].
  - apply (split_join COMMA).
  - apply split_no_sep.
Qed.

(** C8.  [olm list] and a bare [olm] both die on the read of
    [args.outbreak], an attribute their namespace does not have: the run
    ends in an [AttributeError] with nothing printed, so neither the
    listing nor the usage text is ever reached. *)
Theorem list_and_bare_raise_attribute_error :
  main w CmdList = ([], Raise (AttributeError "outbreak"))
  ∧ main w NoCommand = ([], Raise (AttributeError "outbreak")).
Proof. split; unfold main; run; reflexivity. Qed.

(** The whole run on an outbreak the registry does not know. *)
Lemma main_unknown_outbreak inv o :
  outbreak_of inv = Some o →
  o ∉ (OUTBREAKS w).*1 →
  main w inv
  = ([EvMsgFail "cli" ("outbreak not known, choose from: " +:+ BOLD
                       +:+ join ", " (OUTBREAKS w).*1 +:+ RESET)],
     Exit 1).
Proof.
  intros Hinv Hunknown. rewrite <- registry_mem_not_keys in Hunknown.
  destruct inv; simpl in Hinv; try discriminate Hinv;
    injection Hinv as ->; unfold main; run;
    rewrite Hunknown; run; reflexivity.
Qed.

(** C10.  For [get], [lint] and [report], an outbreak name that is not a
    key of [OUTBREAKS] makes the whole run one failure message, which
    lists the known outbreaks, followed by exit status 1. *)
Theorem unknown_outbreak_aborts inv o :
  outbreak_of inv = Some o →
  o ∉ (OUTBREAKS w).*1 →
  main w inv
  = ([EvMsgFail "cli" ("outbreak not known, choose from: " +:+ BOLD
                       +:+ join ", " (OUTBREAKS w).*1 +:+ RESET)],
     Exit 1)
  ∧ exit_status (main w inv) = 1%Z.
Proof.
  intros Hinv Hunknown.
  pose proof (main_unknown_outbreak inv o Hinv Hunknown) as Hrun.
  split; [done|]. by rewrite Hrun.
Qed.

(** The whole run of [get] once the registry has a URL and the server
    answered. *)
Lemma main_get_answered o entry url res :
  registry_lookup (OUTBREAKS w) o = Some entry →
  entry !! "url" = Some url →
  requests_get w url = Ret res →
  main w (CmdGet o)
  = if bool_decide (status_code res = 200%Z) then
      ([EvCall "requests.get" [VStr url] [];
        EvWriteText (o +:+ ".csv") (text res);
        EvMsgOk "get" ("wrote " +:+ o +:+ ".csv")],
       Ret tt)
    else ([EvCall "requests.get" [VStr url] []], Ret tt).
Proof.
  intros Hentry Hurl Hres.
  assert (registry_mem (VStr o) (OUTBREAKS w) = true) as Hknown.
  { apply registry_mem_keys, registry_lookup_keys. by rewrite Hentry. }
  unfold main. run. rewrite Hknown. run. unfold cmd_get. run.
  unfold getitem. rewrite Hentry. run.
  rewrite Hurl, (bool_decide_eq_true_2 (is_Some (Some url))) by eauto.
  run. unfold dict_get. rewrite Hurl. run.
  unfold extern. rewrite Hres. cbv [mbind M_bind].
  by destruct (bool_decide (status_code res = 200%Z)).
Qed.

(** C9.  For [get] on a known outbreak with a data URL, once the server
    has answered: the CSV file is written exactly when the status is 200;
    on any other status the run is the request alone, with no message and
    no write, and the exit status is 0. *)
Theorem get_writes_iff_status_200 o entry url res :
  registry_lookup (OUTBREAKS w) o = Some entry →
  entry !! "url" = Some url →
  requests_get w url = Ret res →
  ((∃ path body, EvWriteText path body ∈ trace (main w (CmdGet o)))
     ↔ status_code res = 200%Z)
  ∧ (status_code res = 200%Z →
       EvWriteText (o +:+ ".csv") (text res) ∈ trace (main w (CmdGet o)))
  ∧ (status_code res ≠ 200%Z →
       main w (CmdGet o) = ([EvCall "requests.get" [VStr url] []], Ret tt)
       ∧ exit_status (main w (CmdGet o)) = 0%Z).
Proof.
  intros Hentry Hurl Hres.
  rewrite (main_get_answered _ _ _ _ Hentry Hurl Hres).
  case_bool_decide as Hst; simpl; split_and!.
  - split; [done|]. intros _.
    exists (o +:+ ".csv"), (text res). apply elem_of_cons; right.
    apply elem_of_cons; by left.
  - intros _. apply elem_of_cons; right. apply elem_of_cons; by left.
  - done.
  - split; [|done]. intros (path & body & Hin).
    rewrite list_elem_of_singleton in Hin. done.
  - done.
  - done.
Qed.

(** Only the [lint] subcommand calls [lint]. *)
Lemma lint_free_other inv :
  (∀ o d s i, inv ≠ CmdLint o d s i) → lint_free (main w inv).
Proof.
  intros Hinv. destruct inv as [| |o|o d s i|o d b c op].
  - unfold main. run. apply lint_free_nil.
  - unfold main. run. apply lint_free_nil.
  - unfold main. run. apply lint_free_bind; [solve_free|].
    intros _. apply lint_free_cmd_get.
  - by destruct (Hinv o d s i).
  - unfold main. run. apply lint_free_bind; [solve_free|].
    intros _. apply lint_free_cmd_report.
Qed.

(** C4, as the code has it.  Every call of [lint] that a run of [main]
    makes comes from the [lint] subcommand and passes four positional
    inputs and no keyword: the outbreak name, the [--data] source or
    [None], the [--schema] source or [None], and the list of names to
    ignore. *)
Theorem lint_called_with_four_inputs inv args kwargs :
  EvCall "lint" args kwargs ∈ trace (main w inv) →
  ∃ o d s i,
    inv = CmdLint o d s i
    ∧ args = [VStr o; opt d; opt s; VList (ignore_keys_of i)]
    ∧ kwargs = []
    ∧ length args = 4.
Proof.
  intros Hin.
  assert ((∃ o d s i, inv = CmdLint o d s i)
          ∨ (∀ o d s i, inv ≠ CmdLint o d s i))
    as [(o & d & s & i & ->)|Hother].
  { destruct inv; try (by right); left; by eexists _, _, _, _. }
  - exists o, d, s, i. split; [done|].
    destruct (registry_mem (VStr o) (OUTBREAKS w)) eqn:Hmem.
    + apply registry_mem_keys in Hmem.
      rewrite main_lint_known in Hin by done. unfold extern in Hin.
      destruct (lint w (VStr o) (opt d) (opt s) (ignore_keys_of i))
        as [r|c|e]; cbv [mbind M_bind trace fst] in Hin.
      * destruct (ok r); simpl in Hin;
          rewrite !elem_of_cons, elem_of_nil in Hin;
          decompose [or] Hin; try discriminate; try contradiction;
          by simplify_eq.
      * apply list_elem_of_singleton in Hin. by simplify_eq.
      * apply list_elem_of_singleton in Hin. by simplify_eq.
    + apply registry_mem_not_keys in Hmem.
      rewrite (main_unknown_outbreak (CmdLint o d s i) o eq_refl Hmem) in Hin. apply list_elem_of_singleton in Hin. done.
  - assert (lint_free (main w inv)) as Hfree.
    { by apply lint_free_other. }
    unfold lint_free in Hfree. rewrite Forall_forall in Hfree.
    by destruct (Hfree _ Hin).
Qed.

End MainProperties.

(** * The theorems at concrete inputs *)

(** The engine on the sample linelist: an out-of-range age on row 0, an
    empty required id and a foreign outcome on row 1, and one column the
    schema does not know. *)
Example engine_on_sample :
  ∃ r, Engine.lint (demo_env demo_dataset) demo_disk "d.csv" "s.json" ∅
       = inr r
       ∧ ok r = false
       ∧ (λ v, (row_index v, field_name v, kind v)) <$> violations r
         = [ (Some 0, "age", OutOfRange);
             (Some 1, "case_id", MissingRequiredField);
             (Some 1, "outcome", InvalidEnumValue);
             (None, "notes", UnknownField) ].
Proof. eexists. split; [reflexivity|]. vm_compute. done. Qed.

(** No rows under a full header is a clean run. *)
Example engine_on_empty_dataset :
  Engine.lint (demo_env demo_empty_dataset) demo_disk "d.csv" "s.json" ∅
  = inr {| ok := true; violations := [] |}.
Proof. vm_compute. reflexivity. Qed.

(** A source that cannot be reached ends the run without a result. *)
Example engine_on_unreachable_dataset :
  Engine.lint (demo_env demo_dataset) demo_disk "https://x/d.csv" "s.json" ∅
  = inl Engine.DatasetLoadError.
Proof. vm_compute. reflexivity. Qed.

(** pathlib drops [.] components and repeated slashes, keeps [..], and
    lets an absolute name replace the working directory. *)
Example path_join_normalises :
  path_join "/home/olm" "./mpox.html" = "/home/olm/mpox.html"
  ∧ path_join "/home/olm" "a//b.html" = "/home/olm/a/b.html"
  ∧ path_join "/home/olm" "../x.html" = "/home/olm/../x.html"
  ∧ path_join "/home/olm" "///x.html" = "/x.html"
  ∧ path_join "/home/olm" "//x.html" = "//x.html"
  ∧ path_join "/" "x.html" = "/x.html".
Proof. vm_compute. done. Qed.

(** Padding counts code points, not bytes: five Cyrillic letters get seven
    spaces. *)
Example ljust_counts_code_points :
  ljust 12 "эбола" = "эбола" +:+ "       "
  ∧ ljust 12 "marburg" = "marburg     "
  ∧ ljust 12 "a-very-long-outbreak" = "a-very-long-outbreak".
Proof. vm_compute. done. Qed.

(** What [olm list] would print, could the listing be reached. *)
Example cmd_list_on_sample :
  trace (cmd_list (demo_world 200 demo_pass))
  = [ EvPrint (BOLD +:+ "marburg      " +:+ RESET
               +:+ "Marburg 2023 Equatorial Guinea [GHL2023.D11.1D60.1]");
      EvPrint (BOLD +:+ "mpox         " +:+ RESET
               +:+ "Mpox 2024 [GHL2024.D11.1E71]") ].
Proof. vm_compute. reflexivity. Qed.

Ltac by_evaluation := apply (bool_decide_unpack _); vm_compute; exact I.

Lemma lint_ok_iff_no_violations_witness :
  (ok (Engine.validate (demo_env demo_dataset) {[ "case_id" ]}
         demo_schema demo_dataset) = true
   ↔ violations (Engine.validate (demo_env demo_dataset) {[ "case_id" ]}
                   demo_schema demo_dataset) = [])
  ∧ ∃ schema dataset,
      Engine.load_schema (demo_env demo_dataset) demo_disk "s.json"
      = inr schema
      ∧ Engine.load_dataset (demo_env demo_dataset) demo_disk "d.csv"
        = inr dataset
      ∧ violations (Engine.validate (demo_env demo_dataset) {[ "case_id" ]}
                      demo_schema demo_dataset)
        = filter (Engine.kept {[ "case_id" ]})
            (violations (Engine.validate (demo_env demo_dataset) ∅
                           schema dataset)).
Proof.
  apply (lint_ok_iff_no_violations (demo_env demo_dataset) demo_disk
           "d.csv" "s.json" {[ "case_id" ]}).
  vm_compute. reflexivity.
Defined.

Lemma ignored_field_never_reported_witness :
  field_name (Engine.mk_violation (demo_env demo_dataset) (Some 0) "age"
                OutOfRange (Some "150"))
  ≠ "case_id".
Proof.
  apply (ignored_field_never_reported (demo_env demo_dataset) demo_disk
           "d.csv" "s.json" {[ "case_id"; "notes" ]}
           (Engine.validate (demo_env demo_dataset) {[ "case_id"; "notes" ]}
              demo_schema demo_dataset)).
  - vm_compute. reflexivity.
  - by_evaluation.
  - vm_compute. constructor.
Defined.

Lemma lint_exit_status_witness :
  (ok demo_fail = true →
     exit_status (main (demo_world 200 demo_fail)
                    (CmdLint "marburg" None None (Some "age,notes"))) = 0%Z)
  ∧ (ok demo_fail = false →
     exit_status (main (demo_world 200 demo_fail)
                    (CmdLint "marburg" None None (Some "age,notes"))) ≠ 0%Z).
Proof.
  apply (lint_exit_status (demo_world 200 demo_fail) "marburg" None None
           (Some "age,notes") demo_fail).
  - by_evaluation.
  - reflexivity.
Defined.

Lemma lint_reports_by_result_witness :
  (violations demo_fail ≠ [] →
     trace (main (demo_world 200 demo_fail) (CmdLint "marburg" None None None))
     = [EvCall "lint" [VStr "marburg"; VNone; VNone; VList []] [];
        EvMsgFail "lint" ("failed for " +:+ BOLD +:+ "marburg" +:+ RESET);
        EvPrint (demo_render demo_fail)])
  ∧ (violations demo_fail = [] →
     trace (main (demo_world 200 demo_fail) (CmdLint "marburg" None None None))
     = [EvCall "lint" [VStr "marburg"; VNone; VNone; VList []] [];
        EvMsgOk "lint" ("succeeded for " +:+ BOLD +:+ "marburg" +:+ RESET)]
     ∧ ∀ detail,
         EvPrint detail
         ∉ trace (main (demo_world 200 demo_fail)
                    (CmdLint "marburg" None None None))).
Proof.
  apply (lint_reports_by_result (demo_world 200 demo_fail) "marburg"
           None None None demo_fail).
  - by_evaluation.
  - reflexivity.
  - simpl. split; discriminate.
Defined.

Lemma lint_receives_ignore_tokens_witness :
  ∃ ignore_keys rest,
    trace (main (demo_world 200 demo_pass)
             (CmdLint "marburg" (Some "d.csv") None (Some "age,,notes")))
    = EvCall "lint"
        [VStr "marburg"; VStr "d.csv"; VNone; VList ignore_keys] [] :: rest
    ∧ ignore_keys = split COMMA "age,,notes"
    ∧ join "," ignore_keys = "age,,notes"
    ∧ Forall (λ tok, contains COMMA tok = false) ignore_keys.
Proof.
  apply (lint_receives_ignore_tokens (demo_world 200 demo_pass) "marburg"
           (Some "d.csv") None (Some "age,,notes")).
  by_evaluation.
Defined.

Lemma get_writes_iff_status_200_witness :
  ((∃ path body,
      EvWriteText path body
      ∈ trace (main (demo_world 404 demo_pass) (CmdGet "marburg")))
   ↔ 404%Z = 200%Z)
  ∧ (404%Z = 200%Z →
       EvWriteText "marburg.csv" "id,age"
       ∈ trace (main (demo_world 404 demo_pass) (CmdGet "marburg")))
  ∧ (404%Z ≠ 200%Z →
       main (demo_world 404 demo_pass) (CmdGet "marburg")
       = ([EvCall "requests.get" [VStr "https://example.org/marburg.csv"] []],
          Ret tt)
       ∧ exit_status (main (demo_world 404 demo_pass) (CmdGet "marburg"))
         = 0%Z).
Proof.
  apply (get_writes_iff_status_200 (demo_world 404 demo_pass) "marburg"
           (<[ "description" := "Marburg 2023 Equatorial Guinea" ]>
            (<[ "id" := "GHL2023.D11.1D60.1" ]>
            {[ "url" := "https://example.org/marburg.csv" ]}))
           "https://example.org/marburg.csv"
           {| status_code := 404; text := "id,age" |}).
  - reflexivity.
  - reflexivity.
  - reflexivity.
Defined.

Lemma unknown_outbreak_aborts_witness :
  main (demo_world 200 demo_pass) (CmdReport "ebola" None None None true)
  = ([EvMsgFail "cli" ("outbreak not known, choose from: " +:+ BOLD
                       +:+ "marburg, mpox" +:+ RESET)],
     Exit 1)
  ∧ exit_status
      (main (demo_world 200 demo_pass) (CmdReport "ebola" None None None true))
    = 1%Z.
Proof.
  apply (unknown_outbreak_aborts (demo_world 200 demo_pass)
           (CmdReport "ebola" None None None true) "ebola").
  - reflexivity.
  - by_evaluation.
Defined.

Lemma lint_called_with_four_inputs_witness :
  ∃ o d s i,
    CmdLint "marburg" (Some "d.csv") None None = CmdLint o d s i
    ∧ [VStr "marburg"; VStr "d.csv"; VNone; VList []]
      = [VStr o; opt d; opt s; VList (ignore_keys_of i)]
    ∧ ([] : list (string * value)) = []
    ∧ length [VStr "marburg"; VStr "d.csv"; VNone; VList []] = 4.
Proof.
  apply (lint_called_with_four_inputs (demo_world 200 demo_pass)
           (CmdLint "marburg" (Some "d.csv") None None)
           [VStr "marburg"; VStr "d.csv"; VNone; VList []] []).
  vm_compute. constructor.
Defined.

(** C4, as the specification words it, fails: were every call of [lint]
    made with three inputs (a dataset source, a schema source and the names
    to ignore), the call that [olm lint marburg] makes would have three; it
    has four, the outbreak name first. *)
Lemma lint_call_is_not_ternary :
  ¬ (∀ (w : World) (inv : invocation) args kwargs,
       EvCall "lint" args kwargs ∈ trace (main w inv) →
       ∃ dataset_source schema_source ignore_fields,
         args = [dataset_source; schema_source; ignore_fields]).
Proof.
  intros Hclaim.
  destruct (Hclaim (demo_world 200 demo_pass)
              (CmdLint "marburg" None None None)
              [VStr "marburg"; VNone; VNone; VList []] [])
    as (dataset_source & schema_source & ignore_fields & Hargs).
  - vm_compute. constructor.
  - discriminate Hargs.
Qed.

(** * The rest of [main]: [get], [report], the listing, exit statuses *)

(** ** Events of a composed run *)

Lemma trace_all_nil {A} P (o : outcome A) : trace_all P (([], o) : M A).
Proof. apply Forall_nil_2. Qed.

Lemma trace_all_emit P e : P e → trace_all P (emit e).
Proof. intros He. by apply Forall_singleton. Qed.

Lemma trace_all_extern {A} P fn args kwargs (res : outcome A) :
  P (EvCall fn args kwargs) → trace_all P (extern fn args kwargs res).
Proof. intros He. by apply Forall_singleton. Qed.

Lemma trace_all_bind {A B} P (m : M A) (f : A → M B) :
  trace_all P m → (∀ a, trace_all P (f a)) → trace_all P (m ≫= f).
Proof.
  unfold trace_all, trace. destruct m as [t [a|c|e]]; simpl; intros Hm Hf.
  - specialize (Hf a). destruct (f a) as [t' o']. simpl in *.
    apply Forall_app; by split.
  - done.
  - done.
Qed.

Lemma trace_all_getattr P args n : trace_all P (getattr args n).
Proof. unfold getattr. destruct (args !! n); apply trace_all_nil. Qed.

Lemma trace_all_getitem {A} P (reg : list (string * A)) k :
  trace_all P (getitem reg k).
Proof.
  unfold getitem. destruct k; try apply trace_all_nil.
  destruct (registry_lookup reg s); apply trace_all_nil.
Qed.

Lemma trace_all_dict_get P d k : trace_all P (dict_get d k).
Proof. unfold dict_get. destruct (d !! k); apply trace_all_nil. Qed.

Lemma trace_all_str_add P v suffix : trace_all P (str_add v suffix).
Proof. destruct v; apply trace_all_nil. Qed.

Lemma trace_all_str_split P v : trace_all P (str_split v).
Proof. destruct v; apply trace_all_nil. Qed.

Lemma trace_all_abort {A} P msg :
  P (EvMsgFail "cli" msg) → trace_all P (abort (A:=A) msg).
Proof. intros He. by apply Forall_singleton. Qed.

Lemma trace_all_for_each {A} P (l : list A) (body : A → M unit) :
  (∀ x, trace_all P (body x)) → trace_all P (for_each l body).
Proof.
  intros Hbody. induction l as [|x l IH]; simpl.
  - apply trace_all_nil.
  - apply trace_all_bind; [apply Hbody|]. by intros _.
Qed.

(** Walk a computation, leaving the events to [side]. *)
Ltac walk side :=
  repeat first
    [ apply trace_all_nil
    | apply trace_all_getattr
    | apply trace_all_getitem
    | apply trace_all_dict_get
    | apply trace_all_str_add
    | apply trace_all_str_split
    | apply trace_all_abort; side
    | apply trace_all_emit; side
    | apply trace_all_extern; side
    | apply trace_all_bind; [|intros ?]
    | match goal with
      | |- trace_all _ (if ?b then _ else _) => destruct b
      end ].

(** ** Exit statuses of a composed run *)

Lemma exits_with_ret {A} P (t : list event) (a : A) :
  exits_with P ((t, Ret a) : M A).
Proof. done. Qed.

Lemma exits_with_raise {A} P (t : list event) e :
  exits_with P ((t, Raise e) : M A).
Proof. done. Qed.

Lemma exits_with_extern {A} P fn args kwargs (res : outcome A) :
  (∀ c, res ≠ Exit c) → exits_with P (extern fn args kwargs res).
Proof.
  intros Hres. unfold exits_with, extern. simpl.
  destruct res as [a|c|e]; [done| |done]. by destruct (Hres c).
Qed.

Lemma exits_with_bind {A B} P (m : M A) (f : A → M B) :
  exits_with P m → (∀ a, exits_with P (f a)) → exits_with P (m ≫= f).
Proof.
  unfold exits_with. destruct m as [t [a|c|e]]; simpl; intros Hm Hf.
  - specialize (Hf a). by destruct (f a) as [t' o'].
  - done.
  - done.
Qed.

Lemma exits_with_getattr P args n : exits_with P (getattr args n).
Proof. unfold getattr. by destruct (args !! n). Qed.

Lemma exits_with_getitem {A} P (reg : list (string * A)) k :
  exits_with P (getitem reg k).
Proof.
  unfold getitem. destruct k; try done. by destruct (registry_lookup reg s).
Qed.

Lemma exits_with_dict_get P d k : exits_with P (dict_get d k).
Proof. unfold dict_get. by destruct (d !! k). Qed.

Lemma exits_with_str_add P v suffix : exits_with P (str_add v suffix).
Proof. by destruct v. Qed.

Lemma exits_with_str_split P v : exits_with P (str_split v).
Proof. by destruct v. Qed.

Lemma exits_with_emit P e : exits_with P (emit e).
Proof. done. Qed.

Lemma exits_with_abort {A} (P : Z → Prop) msg :
  P 1%Z → exits_with P (abort (A:=A) msg).
Proof. done. Qed.

Lemma exits_with_for_each {A} P (l : list A) (body : A → M unit) :
  (∀ x, exits_with P (body x)) → exits_with P (for_each l body).
Proof.
  intros Hbody. induction l as [|x l IH]; simpl.
  - done.
  - apply exits_with_bind; [apply Hbody|]. by intros _.
Qed.

(** Symbolic execution through the registry, given what it holds. *)
Ltac run_with Hentry Hkey :=
  unfold getitem, dict_get;
  repeat first
    [ progress run | rewrite Hentry | rewrite Hkey
    | progress cbn [String.eqb] ].

Lemma exits_with_sys_exit {A} (P : Z → Prop) code :
  P code → exits_with P (sys_exit (A:=A) code).
Proof. done. Qed.

(** Walk a computation for its exits, leaving collaborators to [side]. *)
Ltac walk_exits side :=
  repeat match goal with
  | |- exits_with _ (getattr _ _) => apply exits_with_getattr
  | |- exits_with _ (getitem _ _) => apply exits_with_getitem
  | |- exits_with _ (dict_get _ _) => apply exits_with_dict_get
  | |- exits_with _ (str_add _ _) => apply exits_with_str_add
  | |- exits_with _ (str_split _) => apply exits_with_str_split
  | |- exits_with _ (emit _) => apply exits_with_emit
  | |- exits_with _ (mret _) => exact I
  | |- exits_with _ (abort _) => apply exits_with_abort; side
  | |- exits_with _ (sys_exit _) => apply exits_with_sys_exit; side
  | |- exits_with _ (extern _ _ _ _) => apply exits_with_extern; side
  | |- exits_with _ (_ ≫= _) => apply exits_with_bind; [|intros ?]
  | |- exits_with _ (if ?b then _ else _) => destruct b
  end.

(** [split] cuts once per separator. *)
Lemma split_length c s : length (split c s) = S (count_char c s).
Proof.
  induction s as [|a rest IH]; simpl; [done|].
  destruct (Ascii.eqb a c); simpl.
  - by rewrite IH.
  - destruct (split c rest) as [|tok toks]; simpl in *; [done|]. by rewrite IH.
Qed.

(** ** Code points and padding *)

Lemma py_len_app s t : py_len (s +:+ t) = py_len s + py_len t.
Proof.
  induction s as [|c s IH]; simpl; [done|]. rewrite IH. lia.
Qed.

Lemma py_len_spaces n :
  py_len (String.concat EmptyString (replicate n " ")) = n.
Proof.
  induction n as [|n IH]; [done|].
  destruct n as [|n]; [done|].
  change (replicate (S (S n)) " ") with (" " :: replicate (S n) " ").
  change (String.concat EmptyString (" " :: replicate (S n) " "))
    with (" " +:+ EmptyString
          +:+ String.concat EmptyString (replicate (S n) " ")).
  rewrite !py_len_app, IH. done.
Qed.

(** A justified name has [n] code points, or its own number when that is
    more. *)
Lemma py_len_ljust n s : py_len (ljust n s) = max n (py_len s).
Proof. unfold ljust. rewrite py_len_app, py_len_spaces. lia. Qed.

(** A key of a registry without duplicate keys finds its own entry. *)
Lemma registry_lookup_NoDup {A} (reg : list (string * A)) k v :
  NoDup reg.*1 → (k, v) ∈ reg → registry_lookup reg k = Some v.
Proof.
  induction reg as [|[k' v'] reg IH]; simpl; intros Hnd Hin.
  - by apply elem_of_nil in Hin.
  - apply NoDup_cons in Hnd as [Hk' Hnd].
    apply elem_of_cons in Hin as [Heq|Hin].
    + simplify_eq. by rewrite String.eqb_refl.
    + destruct (String.eqb_spec k' k) as [->|Hne]; [|by apply IH].
      destruct Hk'. apply list_elem_of_fmap. by exists (k, v).
Qed.

Section MainCoverage.
Variable w : World.

Lemma known_lookup o :
  o ∈ (OUTBREAKS w).*1 → ∃ entry, registry_lookup (OUTBREAKS w) o = Some entry.
Proof. intros Hin. by apply registry_lookup_keys in Hin as [entry ?]; eauto. Qed.

Lemma lookup_known o entry :
  registry_lookup (OUTBREAKS w) o = Some entry →
  registry_mem (VStr o) (OUTBREAKS w) = true.
Proof.
  intros Hentry. apply registry_mem_keys, registry_lookup_keys.
  by rewrite Hentry.
Qed.

(** ** Whole runs of [get] *)

Lemma main_get_no_url o entry :
  registry_lookup (OUTBREAKS w) o = Some entry →
  entry !! "url" = None →
  main w (CmdGet o)
  = ([EvMsgFail "cli" ("no data URL found for " +:+ BOLD +:+ o +:+ RESET)],
     Exit 1).
Proof.
  intros Hentry Hurl. pose proof (lookup_known _ _ Hentry) as Hknown.
  unfold main. run. rewrite Hknown. run. unfold cmd_get. run.
  unfold getitem. rewrite Hentry. run.
  rewrite Hurl, (bool_decide_eq_false_2 (is_Some None))
    by (by intros [? ?]).
  reflexivity.
Qed.

Lemma main_get_known o entry url :
  registry_lookup (OUTBREAKS w) o = Some entry →
  entry !! "url" = Some url →
  main w (CmdGet o)
  = extern "requests.get" [VStr url] [] (requests_get w url)
    ≫= λ res,
         if bool_decide (status_code res = 200%Z) then
           emit (EvWriteText (o +:+ ".csv") (text res));;
           emit (EvMsgOk "get" ("wrote " +:+ o +:+ ".csv"))
         else mret tt.
Proof.
  intros Hentry Hurl. pose proof (lookup_known _ _ Hentry) as Hknown.
  unfold main. run. rewrite Hknown. run. unfold cmd_get. run.
  unfold getitem. rewrite Hentry. run.
  rewrite Hurl, (bool_decide_eq_true_2 (is_Some (Some url))) by eauto.
  run. unfold dict_get. rewrite Hurl. run. reflexivity.
Qed.

(** ** Whole runs of [report] *)

Lemma main_report_known o d b c op entry src :
  registry_lookup (OUTBREAKS w) o = Some entry →
  report_source d entry = Some src →
  main w (CmdReport o d b c op)
  = extern "make_report" [VStr o; VStr src; VDict entry]
      [("output_bucket", opt b); ("cloudfront_distribution", opt c)]
      (make_report w (VStr o) (VStr src) entry (opt b) (opt c))
    ≫= λ _,
         if op then
           if path_exists w (o +:+ ".html") then
             extern "webbrowser.open"
               [VStr ("file://" +:+ path_join (cwd w) (o +:+ ".html"))] []
               (webbrowser_open w
                  ("file://" +:+ path_join (cwd w) (o +:+ ".html")));;
             mret tt
           else mret tt
         else mret tt.
Proof.
  intros Hentry Hsrc. pose proof (lookup_known _ _ Hentry) as Hknown.
  unfold main. run. rewrite Hknown. run. unfold cmd_report. run.
  unfold report_source in Hsrc.
  destruct d as [given|]; [case_bool_decide as Hgiven; [subst given|]|].
  - run_with Hentry Hsrc. destruct op; run; reflexivity.
  - simplify_eq. run.
    rewrite (proj2 (String.eqb_neq src EmptyString)) by done.
    run_with Hentry Hentry. destruct op; run; reflexivity.
  - run_with Hentry Hsrc. destruct op; run; reflexivity.
Qed.

Lemma main_report_no_source o d b c op entry :
  registry_lookup (OUTBREAKS w) o = Some entry →
  report_source d entry = None →
  main w (CmdReport o d b c op) = ([], Raise (KeyError "url")).
Proof.
  intros Hentry Hsrc. pose proof (lookup_known _ _ Hentry) as Hknown.
  unfold main. run. rewrite Hknown. run. unfold cmd_report. run.
  unfold report_source in Hsrc.
  destruct d as [given|]; [case_bool_decide as Hgiven; [subst given|done]|].
  - run_with Hentry Hsrc. reflexivity.
  - run_with Hentry Hsrc. reflexivity.
Qed.

(** ** [get] *)

(** X1.  [get] on a known outbreak whose registry entry has no ["url"]
    makes no request: the run is one failure message naming the outbreak
    and exit status 1. *)
Theorem get_without_url_aborts o entry :
  registry_lookup (OUTBREAKS w) o = Some entry →
  entry !! "url" = None →
  main w (CmdGet o)
  = ([EvMsgFail "cli" ("no data URL found for " +:+ BOLD +:+ o +:+ RESET)],
     Exit 1)
  ∧ exit_status (main w (CmdGet o)) = 1%Z.
Proof.
  intros Hentry Hurl. rewrite (main_get_no_url _ _ Hentry Hurl). done.
Qed.

(** No subcommand but [get] writes a file. *)
Lemma write_free_other inv :
  (∀ o, inv ≠ CmdGet o) → trace_all (λ e, ¬ is_write e) (main w inv).
Proof.
  intros Hinv. destruct inv as [| |o|o d s i|o d b c op].
  - unfold main. run. apply trace_all_nil.
  - unfold main. run. apply trace_all_nil.
  - by destruct (Hinv o).
  - unfold main. run.
    apply trace_all_bind; [walk ltac:(simpl; tauto)|].
    intros _. unfold cmd_lint. walk ltac:(simpl; tauto).
  - unfold main. run.
    apply trace_all_bind; [walk ltac:(simpl; tauto)|].
    intros _. unfold cmd_report. walk ltac:(simpl; tauto).
Qed.

(** X2.  [main] itself calls [Path.write_text] only in [get], only on
    [<outbreak>.csv], and only with the body of a response that the
    registry's URL for that outbreak answered with status 200.  What the
    collaborators write on their own (the report that [make_report]
    produces) is not an event of [main] and is not spoken of. *)
Theorem writes_only_after_200 inv path body :
  EvWriteText path body ∈ trace (main w inv) →
  ∃ o entry url res,
    inv = CmdGet o
    ∧ registry_lookup (OUTBREAKS w) o = Some entry
    ∧ entry !! "url" = Some url
    ∧ requests_get w url = Ret res
    ∧ status_code res = 200%Z
    ∧ path = o +:+ ".csv"
    ∧ body = text res.
Proof.
  intros Hin.
  assert ((∃ o, inv = CmdGet o) ∨ (∀ o, inv ≠ CmdGet o)) as [[o ->]|Hother].
  { destruct inv; try (by right); left; by eexists. }
  - destruct (registry_mem (VStr o) (OUTBREAKS w)) eqn:Hmem.
    + apply registry_mem_keys, known_lookup in Hmem as [entry Hentry].
      destruct (entry !! "url") as [url|] eqn:Hurl.
      * exists o, entry, url. rewrite (main_get_known _ _ _ Hentry Hurl) in Hin.
        unfold extern in Hin.
        destruct (requests_get w url) as [res|c|e];
          cbv [mbind M_bind trace fst] in Hin.
        -- exists res. case_bool_decide as Hst; simpl in Hin;
             rewrite !elem_of_cons, elem_of_nil in Hin;
             decompose [or] Hin; try discriminate; try contradiction.
           by simplify_eq.
        -- apply list_elem_of_singleton in Hin. discriminate.
        -- apply list_elem_of_singleton in Hin. discriminate.
      * rewrite (main_get_no_url _ _ Hentry Hurl) in Hin.
        apply list_elem_of_singleton in Hin. discriminate.
    + apply registry_mem_not_keys in Hmem.
      rewrite (main_unknown_outbreak w (CmdGet o) o eq_refl Hmem) in Hin.
      apply list_elem_of_singleton in Hin. discriminate.
  - pose proof (write_free_other inv Hother) as Hfree.
    unfold trace_all in Hfree. rewrite Forall_forall in Hfree.
    by destruct (Hfree _ Hin).
Qed.

(** ** [report] *)

(** X3.  [report] on a known outbreak calls [make_report] first, with the
    outbreak name, the data source, the registry entry and the two keyword
    arguments.  The source is [--data] when that is given and not empty,
    whatever the registry says; otherwise it is the registry's URL. *)
Theorem report_source_precedence o d b c op entry :
  registry_lookup (OUTBREAKS w) o = Some entry →
  (∀ given, d = Some given → given ≠ EmptyString →
     ∃ rest, trace (main w (CmdReport o d b c op))
             = EvCall "make_report" [VStr o; VStr given; VDict entry]
                 [("output_bucket", opt b); ("cloudfront_distribution", opt c)]
               :: rest)
  ∧ (∀ url, d = None ∨ d = Some EmptyString → entry !! "url" = Some url →
     ∃ rest, trace (main w (CmdReport o d b c op))
             = EvCall "make_report" [VStr o; VStr url; VDict entry]
                 [("output_bucket", opt b); ("cloudfront_distribution", opt c)]
               :: rest).
Proof.
  intros Hentry. split.
  - intros given -> Hgiven.
    rewrite (main_report_known o (Some given) b c op entry given Hentry).
    + apply extern_bind_trace.
    + simpl. by rewrite bool_decide_eq_false_2.
  - intros url Hd Hurl.
    rewrite (main_report_known o d b c op entry url Hentry).
    + apply extern_bind_trace.
    + by destruct Hd as [->| ->].
Qed.

(** X4.  [report] without a usable [--data] on a known outbreak whose
    registry entry has no ["url"] dies on the lookup, a [KeyError] with
    nothing printed and nothing called (exit status 1); it does not take
    the clean abort that [get] takes. *)
Theorem report_without_source_raises o d b c op entry :
  registry_lookup (OUTBREAKS w) o = Some entry →
  d = None ∨ d = Some EmptyString →
  entry !! "url" = None →
  main w (CmdReport o d b c op) = ([], Raise (KeyError "url"))
  ∧ exit_status (main w (CmdReport o d b c op)) = 1%Z.
Proof.
  intros Hentry Hd Hurl.
  assert (report_source d entry = None) as Hsrc by by destruct Hd as [->| ->].
  by rewrite (main_report_no_source o d b c op entry Hentry Hsrc).
Qed.

(** X5.  Once [make_report] has returned, [report] opens the browser
    exactly when [--open] was given and [<outbreak>.html] exists, on
    [file://] followed by [str(Path.cwd() / (outbreak + ".html"))] as
    pathlib writes it; the run does nothing else.  If [make_report] does
    not return, the browser is never opened. *)
Theorem report_opens_browser_iff o d b c op entry src :
  registry_lookup (OUTBREAKS w) o = Some entry →
  report_source d entry = Some src →
  match make_report w (VStr o) (VStr src) entry (opt b) (opt c) with
  | Ret _ =>
      trace (main w (CmdReport o d b c op))
      = EvCall "make_report" [VStr o; VStr src; VDict entry]
          [("output_bucket", opt b); ("cloudfront_distribution", opt c)]
        :: (if op && path_exists w (o +:+ ".html") then
              [EvCall "webbrowser.open"
                 [VStr ("file://" +:+ path_join (cwd w) (o +:+ ".html"))] []]
            else [])
  | _ =>
      trace (main w (CmdReport o d b c op))
      = [EvCall "make_report" [VStr o; VStr src; VDict entry]
           [("output_bucket", opt b); ("cloudfront_distribution", opt c)]]
  end.
Proof.
  intros Hentry Hsrc. rewrite (main_report_known _ _ _ _ _ _ _ Hentry Hsrc).
  unfold extern.
  destruct (make_report w (VStr o) (VStr src) entry (opt b) (opt c))
    as [[]|code|e]; [|done..].
  destruct op; [|done]. destruct (path_exists w (o +:+ ".html")); [|done].
  simpl.
  by destruct (webbrowser_open w
                 ("file://" +:+ path_join (cwd w) (o +:+ ".html"))).
Qed.

(** ** All subcommands *)

(** X6.  Each subcommand calls only its own collaborators: [get] only
    [requests.get], [lint] only [lint], [report] only [make_report] and
    [webbrowser.open]; [list] and a bare [olm] call nothing. *)
Theorem calls_by_subcommand inv fn args kwargs :
  EvCall fn args kwargs ∈ trace (main w inv) → fn ∈ callable inv.
Proof.
  intros Hin.
  assert (trace_all (calls_within (callable inv)) (main w inv)) as Hall.
  { destruct inv as [| |o|o d s i|o d b c op].
    - unfold main. run. apply trace_all_nil.
    - unfold main. run. apply trace_all_nil.
    - unfold main. run.
      apply trace_all_bind; [walk ltac:(exact I)|].
      intros _. unfold cmd_get. walk ltac:(first [exact I | simpl; set_solver]).
    - unfold main. run.
      apply trace_all_bind; [walk ltac:(exact I)|].
      intros _. unfold cmd_lint. walk ltac:(first [exact I | simpl; set_solver]).
    - unfold main. run.
      apply trace_all_bind; [walk ltac:(exact I)|].
      intros _. unfold cmd_report. walk ltac:(first [exact I | simpl; set_solver]). }
  unfold trace_all in Hall. rewrite Forall_forall in Hall.
  apply (Hall _ Hin).
Qed.

(** X7.  Once [parser.parse_args()] has returned a namespace, and as long
    as no collaborator calls [sys.exit] itself, the [sys.exit] calls of
    [main] and [abort] end the run only with status 1 or 2, and with 2
    only in the [lint] subcommand.  The exits that argparse takes on its
    own, on a command line it refuses or on [-h], come before and are not
    spoken of. *)
Theorem main_exit_codes inv code :
  never_exits w →
  (main w inv).2 = Exit code →
  code = 1%Z ∨ (code = 2%Z ∧ ∃ o d s i, inv = CmdLint o d s i).
Proof.
  intros (Hlint & Hreport & Hget & Hopen) Hexit.
  assert (exits_with
            (λ c, c = 1%Z ∨ (c = 2%Z ∧ ∃ o d s i, inv = CmdLint o d s i))
            (main w inv)) as Hall.
  { destruct inv as [| |o|o d s i|o d b c op].
    - unfold main. run. done.
    - unfold main. run. done.
    - unfold main. run.
      apply exits_with_bind; [walk_exits ltac:(by left)|].
      intros _. unfold cmd_get.
      walk_exits ltac:(first [by left | intros ?; apply Hget]).
    - unfold main. run.
      apply exits_with_bind; [walk_exits ltac:(by left)|].
      intros _. unfold cmd_lint.
      walk_exits ltac:(first [ intros ?; apply Hlint
                             | right; split; [done|]; by eexists _, _, _, _ ]).
    - unfold main. run.
      apply exits_with_bind; [walk_exits ltac:(by left)|].
      intros _. unfold cmd_report.
      walk_exits ltac:(first [ by left | intros ?; apply Hreport
                             | intros ?; apply Hopen ]). }
  unfold exits_with in Hall. by rewrite Hexit in Hall.
Qed.

(** ** [lint] *)

(** X8.  When [--ignore] is given, [lint] receives one name more than the
    argument has commas: never an empty list, and an empty name for an
    empty argument, a doubled comma or a trailing one. *)
Theorem ignore_keys_count o d s given :
  o ∈ (OUTBREAKS w).*1 →
  ∃ ignore_keys rest,
    trace (main w (CmdLint o d s (Some given)))
    = EvCall "lint" [VStr o; opt d; opt s; VList ignore_keys] [] :: rest
    ∧ length ignore_keys = S (count_char COMMA given).
Proof.
  intros Hknown. rewrite main_lint_known by done.
  destruct (extern_bind_trace "lint"
              [VStr o; opt d; opt s; VList (ignore_keys_of (Some given))] []
              (lint w (VStr o) (opt d) (opt s) (ignore_keys_of (Some given)))
              (λ lint_result : ValidationResult,
                 if ok lint_result then
                   emit (EvMsgOk "lint"
                           ("succeeded for " +:+ BOLD +:+ o +:+ RESET))
                 else
                   emit (EvMsgFail "lint"
                           ("failed for " +:+ BOLD +:+ o +:+ RESET));;
                   emit (EvPrint (render w lint_result));;
                   sys_exit 2)) as [rest Hrest].
  exists (split COMMA given), rest. split; [done|]. apply split_length.
Qed.

(** X9.  [main] catches nothing around [lint]: when [lint] raises or exits
    instead of returning, the run is the call alone, with no message, and
    ends the way [lint] ended. *)
Theorem lint_failure_propagates o d s i :
  o ∈ (OUTBREAKS w).*1 →
  match lint w (VStr o) (opt d) (opt s) (ignore_keys_of i) with
  | Ret _ => True
  | Exit code =>
      main w (CmdLint o d s i)
      = ([EvCall "lint" [VStr o; opt d; opt s; VList (ignore_keys_of i)] []],
         Exit code)
  | Raise e =>
      main w (CmdLint o d s i)
      = ([EvCall "lint" [VStr o; opt d; opt s; VList (ignore_keys_of i)] []],
         Raise e)
      ∧ exit_status (main w (CmdLint o d s i)) = 1%Z
  end.
Proof.
  intros Hknown. rewrite main_lint_known by done. unfold extern.
  by destruct (lint w (VStr o) (opt d) (opt s) (ignore_keys_of i)).
Qed.

(** ** Messages and exit status *)

Lemma main_no_outbreak inv :
  outbreak_of inv = None → main w inv = ([], Raise (AttributeError "outbreak")).
Proof. destruct inv; try done; intros _; unfold main; run; reflexivity. Qed.

Lemma message_free_report o d b c op :
  o ∈ (OUTBREAKS w).*1 →
  trace_all (λ e, ¬ is_message e) (main w (CmdReport o d b c op)).
Proof.
  intros Hknown. rewrite <- registry_mem_keys in Hknown.
  unfold main. run. rewrite Hknown. run.
  unfold cmd_report. walk ltac:(simpl; tauto).
Qed.

(** X10.  The messages agree with the exit status: a run that shows a
    success message ([msg_ok]) ends with status 0, and a run that shows a
    failure message ([msg_fail]) ends with a non-zero status. *)
Theorem messages_agree_with_exit_status inv :
  (∀ tag msg, EvMsgOk tag msg ∈ trace (main w inv) →
     exit_status (main w inv) = 0%Z)
  ∧ (∀ tag msg, EvMsgFail tag msg ∈ trace (main w inv) →
     exit_status (main w inv) ≠ 0%Z).
Proof.
  assert (∀ (t : list event) (o : outcome unit),
            main w inv = (t, o) →
            (∀ tag msg, EvMsgOk tag msg ∈ t → o = Ret tt)
            → (∀ tag msg, EvMsgFail tag msg ∈ t → ∃ c, o = Exit c ∧ c ≠ 0%Z)
            → (∀ tag msg, EvMsgOk tag msg ∈ trace (main w inv) →
                 exit_status (main w inv) = 0%Z)
              ∧ (∀ tag msg, EvMsgFail tag msg ∈ trace (main w inv) →
                 exit_status (main w inv) ≠ 0%Z)) as Hleaf.
  { intros t o -> Hok Hfail. split; intros tag msg Hin.
    - by rewrite (Hok _ _ Hin).
    - destruct (Hfail _ _ Hin) as (c & -> & Hc). done. }
  destruct (outbreak_of inv) as [o|] eqn:Hinv.
  2:{ eapply Hleaf; [by apply main_no_outbreak|..];
        intros tag msg Hin; by apply elem_of_nil in Hin. }
  destruct (registry_mem (VStr o) (OUTBREAKS w)) eqn:Hmem.
  2:{ apply registry_mem_not_keys in Hmem.
      eapply Hleaf; [exact (main_unknown_outbreak w inv o Hinv Hmem)|..];
        intros tag msg Hin; apply list_elem_of_singleton in Hin;
        [discriminate|by exists 1%Z]. }
  apply registry_mem_keys in Hmem.
  destruct (known_lookup _ Hmem) as [entry Hentry].
  destruct inv as [| |o'|o' d s i|o' d b c op]; simplify_eq/=.
  - destruct (entry !! "url") as [url|] eqn:Hurl.
    + pose proof (main_get_known _ _ _ Hentry Hurl) as Hrun.
      unfold extern in Hrun.
      destruct (requests_get w url) as [res|code|e];
        cbv [mbind M_bind] in Hrun;
        [destruct (bool_decide (status_code res = 200%Z))|..];
        simpl in Hrun; (eapply Hleaf; [exact Hrun|..]);
        intros tag msg Hin;
        rewrite ?elem_of_cons, ?elem_of_nil in Hin;
        decompose [or] Hin; try discriminate; try contradiction; done.
    + eapply Hleaf; [exact (main_get_no_url _ _ Hentry Hurl)|..];
        intros tag msg Hin; apply list_elem_of_singleton in Hin;
        [discriminate|by exists 1%Z].
  - pose proof (main_lint_known w o d s i Hmem) as Hrun.
    unfold extern in Hrun.
    destruct (lint w (VStr o) (opt d) (opt s) (ignore_keys_of i))
      as [r|code|e]; cbv [mbind M_bind] in Hrun;
      [destruct (ok r)|..];
      simpl in Hrun; (eapply Hleaf; [exact Hrun|..]);
      intros tag msg Hin;
      rewrite ?elem_of_cons, ?elem_of_nil in Hin;
      decompose [or] Hin; try discriminate; try contradiction;
      try done; by exists 2%Z.
  - pose proof (message_free_report o d b c op Hmem) as Hfree.
    unfold trace_all in Hfree. rewrite Forall_forall in Hfree.
    split; intros tag msg Hin; destruct (Hfree _ Hin); exact I.
Qed.

(** ** The listing *)

Lemma for_each_listing (reg l : list (string * gmap string string)) :
  (∀ k e, (k, e) ∈ l →
     registry_lookup reg k = Some e
     ∧ is_Some (e !! "description") ∧ is_Some (e !! "id")) →
  for_each l.*1 (λ outbreak,
    entry ← getitem reg (VStr outbreak);
    description ← dict_get entry "description";
    entry ← getitem reg (VStr outbreak);
    id ← dict_get entry "id";
    emit (EvPrint (BOLD +:+ ljust 12 outbreak +:+ " " +:+ RESET
                   +:+ description +:+ " [" +:+ id +:+ "]")))
  = ((λ ke, listing_line ke.1
              (default EmptyString (ke.2 !! "description"))
              (default EmptyString (ke.2 !! "id"))) <$> l,
     Ret tt).
Proof.
  induction l as [|[k e] l IH]; intros Hl; [done|].
  destruct (Hl k e) as (Hk & [desc Hdesc] & [id Hid]); [by left|].
  cbn [fmap list_fmap fst for_each]. rewrite IH.
  - cbv beta. unfold getitem, dict_get.
    repeat first [progress run | rewrite Hk | rewrite Hdesc | rewrite Hid].
    simpl. by rewrite Hdesc, Hid.
  - intros k' e' Hin. apply Hl. by right.
Qed.

(** X11.  The listing code, when every registry entry has a description
    and an id (and keys are distinct, as in a dict), prints one line per
    outbreak in registry order: the name in bold and left-justified, then
    the description and the id in brackets.  Left-justified means: the
    name followed by spaces only, as many as bring it to 12 code points,
    and none when it already has 12 or more. *)
Theorem listing_prints_every_outbreak :
  NoDup (OUTBREAKS w).*1 →
  (∀ k e, (k, e) ∈ OUTBREAKS w →
     is_Some (e !! "description") ∧ is_Some (e !! "id")) →
  cmd_list w
  = ((λ ke, listing_line ke.1
              (default EmptyString (ke.2 !! "description"))
              (default EmptyString (ke.2 !! "id"))) <$> OUTBREAKS w,
     Ret tt)
  ∧ ∀ name,
      py_len (ljust 12 name) = max 12 (py_len name)
      ∧ ∃ pad, ljust 12 name
               = name +:+ String.concat EmptyString (replicate pad " ").
Proof.
  intros Hnd Hall. split.
  - unfold cmd_list. apply for_each_listing.
    intros k e Hin. split; [by apply registry_lookup_NoDup|by apply (Hall k)].
  - intros name. split; [apply py_len_ljust|]. by eexists.
Qed.

End MainCoverage.

(** ** The further theorems at concrete inputs *)

Lemma get_without_url_aborts_witness :
  main (demo_world 200 demo_pass) (CmdGet "mpox")
  = ([EvMsgFail "cli" ("no data URL found for " +:+ BOLD +:+ "mpox"
                       +:+ RESET)],
     Exit 1)
  ∧ exit_status (main (demo_world 200 demo_pass) (CmdGet "mpox")) = 1%Z.
Proof.
  apply (get_without_url_aborts (demo_world 200 demo_pass) "mpox"
           (<[ "description" := "Mpox 2024" ]>
            {[ "id" := "GHL2024.D11.1E71" ]})).
  - reflexivity.
  - reflexivity.
Defined.

Lemma writes_only_after_200_witness :
  ∃ o entry url res,
    CmdGet "marburg" = CmdGet o
    ∧ registry_lookup (OUTBREAKS (demo_world 200 demo_pass)) o = Some entry
    ∧ entry !! "url" = Some url
    ∧ requests_get (demo_world 200 demo_pass) url = Ret res
    ∧ status_code res = 200%Z
    ∧ "marburg.csv" = o +:+ ".csv"
    ∧ "id,age" = text res.
Proof.
  apply (writes_only_after_200 (demo_world 200 demo_pass)
           (CmdGet "marburg") "marburg.csv" "id,age").
  vm_compute. do 2 constructor.
Defined.

Lemma report_source_precedence_witness :
  (∀ given, Some "local.csv" = Some given → given ≠ EmptyString →
     ∃ rest,
       trace (main (demo_world 200 demo_pass)
                (CmdReport "mpox" (Some "local.csv") (Some "bucket") None
                   false))
       = EvCall "make_report"
           [VStr "mpox"; VStr given;
            VDict (<[ "description" := "Mpox 2024" ]>
                   {[ "id" := "GHL2024.D11.1E71" ]})]
           [("output_bucket", VStr "bucket");
            ("cloudfront_distribution", VNone)]
         :: rest)
  ∧ (∀ url,
       Some "local.csv" = None ∨ Some "local.csv" = Some EmptyString →
       (<[ "description" := "Mpox 2024" ]>
        ({[ "id" := "GHL2024.D11.1E71" ]} : gmap string string))
         !! "url" = Some url →
       ∃ rest,
         trace (main (demo_world 200 demo_pass)
                  (CmdReport "mpox" (Some "local.csv") (Some "bucket") None
                     false))
         = EvCall "make_report"
             [VStr "mpox"; VStr url;
              VDict (<[ "description" := "Mpox 2024" ]>
                     {[ "id" := "GHL2024.D11.1E71" ]})]
             [("output_bucket", VStr "bucket");
              ("cloudfront_distribution", VNone)]
           :: rest).
Proof.
  apply (report_source_precedence (demo_world 200 demo_pass) "mpox"
           (Some "local.csv") (Some "bucket") None false).
  reflexivity.
Defined.

Lemma report_without_source_raises_witness :
  main (demo_world 200 demo_pass) (CmdReport "mpox" None None None true)
  = ([], Raise (KeyError "url"))
  ∧ exit_status
      (main (demo_world 200 demo_pass) (CmdReport "mpox" None None None true))
    = 1%Z.
Proof.
  apply (report_without_source_raises (demo_world 200 demo_pass) "mpox"
           None None None true
           (<[ "description" := "Mpox 2024" ]>
            {[ "id" := "GHL2024.D11.1E71" ]})).
  - reflexivity.
  - by left.
  - reflexivity.
Defined.

Lemma report_opens_browser_iff_witness :
  trace (main (demo_world 200 demo_pass)
           (CmdReport "marburg" (Some EmptyString) None (Some "E2XYZ") true))
  = [ EvCall "make_report"
        [VStr "marburg"; VStr "https://example.org/marburg.csv";
         VDict (<[ "description" := "Marburg 2023 Equatorial Guinea" ]>
                (<[ "id" := "GHL2023.D11.1D60.1" ]>
                {[ "url" := "https://example.org/marburg.csv" ]}))]
        [("output_bucket", VNone); ("cloudfront_distribution", VStr "E2XYZ")];
      EvCall "webbrowser.open" [VStr "file:///home/olm/marburg.html"] [] ].
Proof.
  apply (report_opens_browser_iff (demo_world 200 demo_pass) "marburg"
           (Some EmptyString) None (Some "E2XYZ") true
           (<[ "description" := "Marburg 2023 Equatorial Guinea" ]>
            (<[ "id" := "GHL2023.D11.1D60.1" ]>
            {[ "url" := "https://example.org/marburg.csv" ]}))
           "https://example.org/marburg.csv").
  - reflexivity.
  - reflexivity.
Defined.

Lemma calls_by_subcommand_witness :
  "webbrowser.open"
  ∈ callable (CmdReport "marburg" None None None true).
Proof.
  apply (calls_by_subcommand (demo_world 200 demo_pass)
           (CmdReport "marburg" None None None true) "webbrowser.open"
           [VStr "file:///home/olm/marburg.html"] []).
  vm_compute. do 2 constructor.
Defined.

Lemma main_exit_codes_witness :
  2%Z = 1%Z
  ∨ (2%Z = 2%Z
     ∧ ∃ o d s i, CmdLint "marburg" None None (Some "age") = CmdLint o d s i).
Proof.
  apply (main_exit_codes (demo_world 200 demo_fail)
           (CmdLint "marburg" None None (Some "age")) 2%Z).
  - unfold never_exits. simpl. repeat split; intros; discriminate.
  - reflexivity.
Defined.

Lemma ignore_keys_count_witness :
  ∃ ignore_keys rest,
    trace (main (demo_world 200 demo_pass)
             (CmdLint "marburg" None None (Some "age,,notes,")))
    = EvCall "lint" [VStr "marburg"; VNone; VNone; VList ignore_keys] []
      :: rest
    ∧ length ignore_keys = S (count_char COMMA "age,,notes,").
Proof.
  apply (ignore_keys_count (demo_world 200 demo_pass) "marburg" None None
           "age,,notes,").
  by_evaluation.
Defined.

Lemma lint_failure_propagates_witness :
  main demo_offline (CmdLint "marburg" (Some "d.csv") None None)
  = ([EvCall "lint" [VStr "marburg"; VStr "d.csv"; VNone; VList []] []],
     Raise (External "cannot load data"))
  ∧ exit_status (main demo_offline (CmdLint "marburg" (Some "d.csv") None None))
    = 1%Z.
Proof.
  apply (lint_failure_propagates demo_offline "marburg" (Some "d.csv")
           None None).
  by_evaluation.
Defined.

Lemma listing_prints_every_outbreak_witness :
  cmd_list (demo_world 200 demo_pass)
  = ([ listing_line "marburg" "Marburg 2023 Equatorial Guinea"
         "GHL2023.D11.1D60.1";
       listing_line "mpox" "Mpox 2024" "GHL2024.D11.1E71" ],
     Ret tt)
  ∧ ∀ name,
      py_len (ljust 12 name) = max 12 (py_len name)
      ∧ ∃ pad, ljust 12 name
               = name +:+ String.concat EmptyString (replicate pad " ").
Proof.
  apply (listing_prints_every_outbreak (demo_world 200 demo_pass)).
  - by_evaluation.
  - intros k e Hin. simpl in Hin. unfold demo_outbreaks in Hin.
    rewrite !elem_of_cons, elem_of_nil in Hin.
    destruct Hin as [Heq|[Heq|[]]]; injection Heq as -> ->;
      split; eexists; reflexivity.
Defined.
